(** * Build utilities of origin, package [pkg/build/util]

    A shallow embedding of [util.go] and the properties of its decision
    functions.  Go values are modelled as follows:

    - a [string] is a Rocq [string] (a sequence of bytes);
    - a slice is a [list] holding its elements up to [len]; spare capacity is
      not visible to any function of this package;
    - a [map[string]T] is a [gmap string T]; a map-typed field is an [option]
      of it, [None] being the nil map;
    - a pointer is an [option] of its pointee, [None] being nil;
    - a run-time panic is an explicit result ([Panic]), never a stuck term. *)

From Stdlib Require Import ZArith Ascii Lia.
From stdpp Require Import base option list strings gmap.

(** ** Go run-time results *)

Inductive panic : Type :=
  | NilDereference          (* invalid memory address or nil pointer dereference *)
  | SliceBoundsOutOfRange.  (* slice bounds out of range *)

Inductive go (A : Type) : Type :=
  | Return (a : A)
  | Panic (p : panic).
Arguments Return {A} a.
Arguments Panic {A} p.

#[global] Instance go_ret : MRet go := fun A a => Return a.

#[global] Instance go_bind : MBind go := fun A B k c =>
  match c with
  | Return a => k a
  | Panic p => Panic p
  end.

Definition returns {A : Type} (c : go A) : bool :=
  match c with Return _ => true | Panic _ => false end.

(** ** Object model *)

(** Modelled from the spec: the object types of package kapi (object and list
    metadata, object references, pods, environment variables), whose
    declarations are outside this source tree.  Each type has the fields
    that util.go selects, under the names it selects them by. *)
Module kapi.

Module ObjectReference.
Record t : Type := mk {
  Kind : string;
  Namespace : string;
  Name : string
}.
End ObjectReference.

Module TypeMeta.
Record t : Type := mk {
  Kind : string;
  APIVersion : string
}.
End TypeMeta.

Module ListMeta.
Record t : Type := mk {
  SelfLink : string;
  ResourceVersion : string
}.
End ListMeta.

Module ObjectMeta.
Record t : Type := mk {
  Name : string;
  Namespace : string;
  Labels : option (gmap string string);
  Annotations : option (gmap string string)
}.
End ObjectMeta.

Record Pod : Type := mkPod {
  PodMeta : ObjectMeta.t
}.

(** Next to its name and value an [EnvVar] carries [ValueFrom], a
    [*EnvVarSource]; this package copies the pointer with the entry and never
    follows it, so it is kept as an address. *)
Record EnvVar : Type := mkEnvVar {
  Name : string;
  Value : string;
  ValueFrom : option N
}.

Definition set_Value (v : string) (env : EnvVar) : EnvVar :=
  {| Name := Name env; Value := v; ValueFrom := ValueFrom env |}.

End kapi.

(** Modelled from the spec: the object types of package buildapi (builds,
    build configurations, build lists, run policies, strategies), whose
    declarations are outside this source tree; again with the fields that
    util.go selects. *)
Module buildapi.

Import kapi.

Record BuildConfig : Type := mkBuildConfig {
  BuildConfigMeta : ObjectMeta.t
}.

(** [BuildPhase] is a string type; the set of phases is open. *)
Definition BuildPhase : Type := string.

Record Build : Type := mkBuild {
  BuildMeta : ObjectMeta.t;
  Phase : BuildPhase        (* Status.Phase *)
}.

Record BuildList : Type := mkBuildList {
  ListTypeMeta : TypeMeta.t;
  ListListMeta : ListMeta.t;
  Items : list Build
}.

Inductive BuildRunPolicy : Type :=
  | BuildRunPolicyParallel
  | BuildRunPolicySerial
  | BuildRunPolicySerialLatestOnly.

(** The strategies, with the field this package reads.  [BuildStrategy] is
    a struct of three pointers, each tested against nil.  [From] is an
    [ObjectReference] in the source and custom strategies and an
    [*ObjectReference] in the docker strategy: [GetInputReference] takes the
    address of the former and returns the latter as it is. *)
Record SourceBuildStrategy : Type := mkSourceBuildStrategy {
  SourceFrom : ObjectReference.t
}.

Record DockerBuildStrategy : Type := mkDockerBuildStrategy {
  DockerFrom : option ObjectReference.t
}.

Record CustomBuildStrategy : Type := mkCustomBuildStrategy {
  CustomFrom : ObjectReference.t
}.

Record BuildStrategy : Type := mkBuildStrategy {
  DockerStrategy : option DockerBuildStrategy;
  SourceStrategy : option SourceBuildStrategy;
  CustomStrategy : option CustomBuildStrategy
}.

End buildapi.

Import kapi buildapi.

(** [v, ok := m[k]]: a nil map behaves as an empty one, a missing key yields
    the zero value. *)
Definition map_get (m : option (gmap string string)) (k : string) : string * bool :=
  match m with
  | Some g =>
      match g !! k with
      | Some v => (v, true)
      | None => (""%string, false)
      end
  | None => (""%string, false)
  end.

(** [m[k]] *)
Definition map_index (m : option (gmap string string)) (k : string) : string :=
  fst (map_get m k).

(** ** MergeTrustedEnvWithoutDuplicates *)

Module Merge.

Record sourceMapItem : Type := mkItem {
  index : nat;
  value : string
}.

(** The state of the first loop: the counter [index], [filteredSourceMap] and
    [filteredSource]. *)
Record filtered : Type := mkFiltered {
  next_index : nat;
  filteredSourceMap : gmap string sourceMapItem;
  filteredSource : list EnvVar
}.

Definition filtered_init : filtered :=
  {| next_index := 0; filteredSourceMap := ∅; filteredSource := [] |}.

(** [s[:k]] followed by [s[k+1:]] and the append of the two.  Both slice
    expressions are bounds-checked: [s[:k]] needs [k <= cap s], [s[k+1:]]
    needs [k+1 <= len s]; as [len s <= cap s] the second check decides.  The
    append writes into the array of [s] itself and yields the elements before
    and after position [k]. *)
Definition remove_index (k : nat) (s : list EnvVar) : go (list EnvVar) :=
  if k + 1 <=? length s then Return (take k s ++ drop (k + 1) s)
  else Panic SliceBoundsOutOfRange.

Section WithWhitelist.

(** [buildapi.WhitelistEnvVarNames], declared outside this source tree. *)
Variable WhitelistEnvVarNames : list string.

(** The inner loop over the whitelist: [true] when it leaves through [break]. *)
Fixpoint acceptable_in (whitelist : list string) (name : string) : bool :=
  match whitelist with
  | [] => false
  | acceptable :: rest =>
      if String.eqb name acceptable then true else acceptable_in rest name
  end.

Definition acceptable (name : string) : bool :=
  acceptable_in WhitelistEnvVarNames name.

(** One iteration of [for _, env := range source]. *)
Definition filter_step (st : filtered) (env : EnvVar) : filtered :=
  if acceptable (Name env) then
    {| next_index := S (next_index st);
       filteredSourceMap :=
         <[Name env := mkItem (next_index st) (Value env)]> (filteredSourceMap st);
       filteredSource := filteredSource st ++ [env] |}
  else st.

Definition filter_source (source : list EnvVar) : filtered :=
  fold_left filter_step source filtered_init.

(** [for i, env := range result]: the first component is the array of
    [result] when the loop stops, the second is [filteredSource] at that
    time, or the panic that stopped it.  The store to [result[i].Value]
    precedes the slicing, so it is done even when the slicing panics. *)
Fixpoint walk (m : gmap string sourceMapItem) (sourcePrecedence : bool)
    (result : list EnvVar) (fsrc : list EnvVar) : list EnvVar * go (list EnvVar) :=
  match result with
  | [] => ([], Return fsrc)
  | env :: rest =>
      match m !! Name env with
      | Some v =>
          let env' := if sourcePrecedence then set_Value (value v) env else env in
          match remove_index (index v) fsrc with
          | Return fsrc' =>
              let '(rest', r) := walk m sourcePrecedence rest fsrc' in
              (env' :: rest', r)
          | Panic p => (env' :: rest, Panic p)
          end
      | None =>
          let '(rest', r) := walk m sourcePrecedence rest fsrc in
          (env :: rest', r)
      end
  end.

(** What the caller observes: the call returns and [*output] holds the given
    list, or the call panics; [*output] is then the slice it was, whose
    elements may have been overwritten. *)
Inductive outcome : Type :=
  | Returned (output : list EnvVar)
  | Panicked (p : panic) (output : list EnvVar).

Definition final_output (o : outcome) : list EnvVar :=
  match o with
  | Returned out => out
  | Panicked _ out => out
  end.


(** [output] is the slice [*output]; the pointer itself is taken to be
    non-nil. *)
Definition MergeTrustedEnvWithoutDuplicates (source : list EnvVar)
    (output : list EnvVar) (sourcePrecedence : bool) : outcome :=
  let st := filter_source source in
  match walk (filteredSourceMap st) sourcePrecedence output (filteredSource st) with
  | (result, Return fsrc) => Returned (result ++ fsrc)
  | (result, Panic p) => Panicked p result
  end.

End WithWhitelist.

End Merge.

(** ** Package strconv of the Go library, base 10 *)

Module strconv.

Local Open Scope Z_scope.

Inductive num_err : Type :=
  | ErrSyntax   (* invalid syntax *)
  | ErrRange.   (* value out of range *)

Definition maxUint64 : Z := 2 ^ 64 - 1.

Definition byte_of (c : ascii) : Z := Z.of_N (N_of_ascii c).

(** The digit loop of [ParseUint(s, 10, bitSize)], from the accumulator [n]:
    a byte that is no decimal digit is a syntax error; the accumulator is
    checked against [cutoff] before it is multiplied, and the sum, taken in
    uint64, against wrap-around and [maxVal].  After a range error the number
    returned is [maxUint64]. *)
Fixpoint digits (bitSize : Z) (s : string) (n : Z) : Z * option num_err :=
  match s with
  | EmptyString => (n, None)
  | String d rest =>
      let cutoff := maxUint64 / 10 + 1 in
      let maxVal := 2 ^ bitSize - 1 in
      if (byte_of "0"%char <=? byte_of d) && (byte_of d <=? byte_of "9"%char) then
        let v := byte_of d - byte_of "0"%char in
        if cutoff <=? n then (maxUint64, Some ErrRange)
        else
          let n10 := n * 10 in
          let n1 := (n10 + v) mod 2 ^ 64 in
          if (n1 <? n10) || (maxVal <? n1) then (maxUint64, Some ErrRange)
          else digits bitSize rest n1
      else (0, Some ErrSyntax)
  end.

Definition ParseUint (s : string) (bitSize : Z) : Z * option num_err :=
  match s with
  | EmptyString => (0, Some ErrSyntax)
  | _ => digits bitSize s 0
  end.

(** [ParseInt(s, 10, bitSize)] for [bitSize] other than 0: the number and the
    [Err] field of the [*NumError], if any. *)
Definition ParseInt (s : string) (bitSize : Z) : Z * option num_err :=
  match s with
  | EmptyString => (0, Some ErrSyntax)
  | String c rest =>
      let neg := Ascii.eqb c "-"%char in
      let s1 := if Ascii.eqb c "+"%char || neg then rest else s in
      match ParseUint s1 bitSize with
      | (_, Some ErrSyntax) => (0, Some ErrSyntax)
      | (un, _) =>
          let cutoff := 2 ^ (bitSize - 1) in
          if negb neg && (cutoff <=? un) then (cutoff - 1, Some ErrRange)
          else if neg && (cutoff <? un) then (- cutoff, Some ErrRange)
          else (if neg then - un else un, None)
      end
  end.

(** [Atoi(s)] is [ParseInt(s, 10, 0)] converted to [int]; bit size 0 stands
    for [IntSize], the width of [int] on the target. *)
Definition Atoi (IntSize : Z) (s : string) : Z * option num_err :=
  ParseInt s IntSize.

End strconv.

(** ** Package strings of the Go library *)

(** [strings.ToLower] on the ASCII letters; other bytes are kept.  Go also
    maps letters outside ASCII; none of them maps to a letter of ["true"],
    the only string the result is compared with. *)
Definition lower_byte (c : ascii) : ascii :=
  let n := N_of_ascii c in
  if (65 <=? n)%N && (n <=? 90)%N then ascii_of_N (n + 32) else c.

Fixpoint ToLower (s : string) : string :=
  match s with
  | EmptyString => EmptyString
  | String c rest => String (lower_byte c) (ToLower rest)
  end.

(** The [error] values met in this package. *)
Inductive error : Type :=
  | NumError (func : string) (num : string) (err : strconv.num_err)
  | Errorf (msg : string)
  | Upstream (msg : string).   (* an error made by a collaborator *)

(** [strconv.ParseInt(s, 10, 64)] with its error as the [error] it returns. *)
Definition ParseInt64 (s : string) : Z * option error :=
  let '(n, e) := strconv.ParseInt s 64 in
  (n, NumError "ParseInt" s <$> e).

(** ** Package fmt of the Go library: the verb [%d] *)

Module fmt.

Local Open Scope Z_scope.

Definition digit_byte (u : Z) : ascii := ascii_of_N (Z.to_N (48 + u)).

(** The loop of [fmtInteger] in base 10: the digits of [u] are written from
    the last one backwards, in front of what is already in the buffer.  The
    buffer has room for every uint64, which has 20 digits at most. *)
Fixpoint write_digits (room : nat) (u : Z) (buf : string) : string :=
  match room with
  | O => buf
  | S room' =>
      if 10 <=? u then
        let next := u / 10 in
        write_digits room' next (String (digit_byte (u - next * 10)) buf)
      else String (digit_byte u) buf
  end.

(** [%d] of a signed integer: the sign, if negative, then the digits of the
    magnitude. *)
Definition fmt_d (v : Z) : string :=
  if v <? 0 then String "-" (write_digits 20 (- v) "")
  else write_digits 20 v "".

End fmt.

(** ** The functions of util.go *)

(** Modelled from the spec: the selector and the lister capability, which
    are declared outside this source tree.  A [labels.Selector] made from a
    one-entry [labels.Set] is an exact match on one label key; the
    [kapi.ListOptions] carries it. *)
Record Selector : Type := mkSelector {
  selector_key : string;
  selector_value : string
}.

Record ListOptions : Type := mkListOptions {
  LabelSelector : Selector
}.

(** [buildclient.BuildLister]: its one method [List], which gives a list
    pointer and an error. *)
Definition BuildLister : Type :=
  string -> ListOptions -> option BuildList * option error.

(** [buildFilter]; a nil function value is [None]. *)
Definition buildFilter : Type := option (Build -> bool).

Section Util.

(** Constants and the helper [LabelValue] of package buildapi, declared
    outside this source tree. *)
Variables BuildAnnotation BuildConfigPausedAnnotation BuildNumberAnnotation
  BuildConfigAnnotation BuildConfigLabel BuildConfigLabelDeprecated
  BuildRunPolicyLabel : string.
Variables BuildPhaseRunning BuildPhasePending BuildPhaseNew : BuildPhase.
Variable LabelValue : string -> string.

(** The width of [int] on the target, [strconv.IntSize]. *)
Variable IntSize : Z.

Definition GetBuildName (pod : option Pod) : string :=
  match pod with
  | None => ""
  | Some pod => map_index (ObjectMeta.Annotations (PodMeta pod)) BuildAnnotation
  end.

Definition GetInputReference (strategy : BuildStrategy) : option ObjectReference.t :=
  match SourceStrategy strategy with
  | Some source => Some (SourceFrom source)
  | None =>
      match DockerStrategy strategy with
      | Some docker => DockerFrom docker
      | None =>
          match CustomStrategy strategy with
          | Some custom => Some (CustomFrom custom)
          | None => None
          end
      end
  end.

(** Following a pointer: nil panics. *)
Definition deref {A : Type} (p : option A) : go A :=
  match p with
  | Some a => Return a
  | None => Panic NilDereference
  end.

Definition IsBuildComplete (build : option Build) : go bool :=
  b ← deref build;
  mret (negb (String.eqb (Phase b) BuildPhaseRunning)
        && negb (String.eqb (Phase b) BuildPhasePending)
        && negb (String.eqb (Phase b) BuildPhaseNew)).

Definition IsPaused (bc : option BuildConfig) : go bool :=
  c ← deref bc;
  mret (String.eqb
          (ToLower (map_index (ObjectMeta.Annotations (BuildConfigMeta c))
                      BuildConfigPausedAnnotation))
          "true").

(** The message of [fmt.Errorf("build %s/%s does not have %s annotation", ...)]. *)
Definition no_annotation_message (namespace name : string) : string :=
  "build " +:+ namespace +:+ "/" +:+ name +:+ " does not have "
    +:+ BuildNumberAnnotation +:+ " annotation".

Definition BuildNumber (build : option Build) : go (Z * option error) :=
  b ← deref build;
  let annotations := ObjectMeta.Annotations (BuildMeta b) in
  let '(stringNumber, ok) := map_get annotations BuildNumberAnnotation in
  if ok then mret (ParseInt64 stringNumber)
  else mret (0%Z, Some (Errorf (no_annotation_message
                                  (ObjectMeta.Namespace (BuildMeta b))
                                  (ObjectMeta.Name (BuildMeta b))))).

(** The line given to [glog.V(5).Infof]. *)
Definition default_policy_message (namespace name : string) : string :=
  "Build " +:+ namespace +:+ "/" +:+ name
    +:+ " does not have start policy label set, using default (Serial)".

(** The policy, and the diagnostic line when the default is taken. *)
Definition BuildRunPolicy (build : option Build)
    : go (buildapi.BuildRunPolicy * option string) :=
  b ← deref build;
  let labels := ObjectMeta.Labels (BuildMeta b) in
  let '(value, found) := map_get labels BuildRunPolicyLabel in
  let default :=
    (BuildRunPolicySerial,
     Some (default_policy_message (ObjectMeta.Namespace (BuildMeta b))
             (ObjectMeta.Name (BuildMeta b)))) in
  if found then
    if String.eqb value "Parallel" then mret (BuildRunPolicyParallel, None)
    else if String.eqb value "Serial" then mret (BuildRunPolicySerial, None)
    else if String.eqb value "SerialLatestOnly"
         then mret (BuildRunPolicySerialLatestOnly, None)
    else mret default
  else mret default.

(** [fmt.Sprintf("%s-%d", name, version)] *)
Definition BuildNameForConfigVersion (name : string) (version : Z) : string :=
  name +:+ "-" +:+ fmt.fmt_d version.

Definition BuildConfigSelector (name : string) : Selector :=
  {| selector_key := BuildConfigLabel; selector_value := LabelValue name |}.

Definition BuildConfigSelectorDeprecated (name : string) : Selector :=
  {| selector_key := BuildConfigLabelDeprecated; selector_value := name |}.

(** [for _, b := range result.Items], appending to [filteredList.Items]. *)
Definition filter_items (filterFunc : Build -> bool) (items : list Build)
    : list Build :=
  fold_left (fun acc b => if filterFunc b then acc ++ [b] else acc) items [].

Definition BuildConfigBuilds (c : BuildLister) (namespace name : string)
    (filterFunc : buildFilter) : go (option BuildList * option error) :=
  let '(result, err) :=
    c namespace {| LabelSelector := BuildConfigSelector name |} in
  match err with
  | Some e => mret (None, Some e)
  | None =>
      match filterFunc with
      | None => mret (result, None)
      | Some f =>
          r ← deref result;
          mret (Some {| ListTypeMeta := ListTypeMeta r;
                        ListListMeta := ListListMeta r;
                        Items := filter_items f (Items r) |}, None)
      end
  end.

Definition ConfigNameForBuild (build : option Build) : string :=
  match build with
  | None => ""
  | Some b =>
      let annotations := ObjectMeta.Annotations (BuildMeta b) in
      let labels := ObjectMeta.Labels (BuildMeta b) in
      if bool_decide (annotations <> None)
         && snd (map_get annotations BuildConfigAnnotation)
      then map_index annotations BuildConfigAnnotation
      else if snd (map_get labels BuildConfigLabel)
      then map_index labels BuildConfigLabel
      else map_index labels BuildConfigLabelDeprecated
  end.

Definition VersionForBuild (build : option Build) : Z :=
  match build with
  | None => 0
  | Some b =>
      let versionString :=
        map_index (ObjectMeta.Annotations (BuildMeta b)) BuildNumberAnnotation in
      let '(version, err) := strconv.Atoi IntSize versionString in
      match err with
      | Some _ => 0
      | None => version
      end
  end.

End Util.

(** ** Notions used to state the properties *)

(** Whether a key exists in a map-typed field, and its value. *)
Definition lookup_in (m : option (gmap string string)) (k : string) : option string :=
  g ← m; g !! k.

Definition no_variant_set (strategy : BuildStrategy) : Prop :=
  SourceStrategy strategy = None
  /\ DockerStrategy strategy = None
  /\ CustomStrategy strategy = None.

Definition docker_without_from : BuildStrategy :=
  {| DockerStrategy := Some {| DockerFrom := None |};
     SourceStrategy := None;
     CustomStrategy := None |}.

(** A base-10 integer as it is written: an optional sign, then one or more
    decimal digits. *)
Definition is_digit (c : ascii) : bool :=
  (48 <=? N_of_ascii c)%N && (N_of_ascii c <=? 57)%N.

Fixpoint decimal (s : string) (acc : Z) : option Z :=
  match s with
  | EmptyString => Some acc
  | String c rest =>
      if is_digit c then decimal rest (acc * 10 + (Z.of_N (N_of_ascii c) - 48))
      else None
  end.

Definition unsigned_literal (s : string) : option Z :=
  match s with
  | EmptyString => None
  | _ => decimal s 0
  end.

Definition integer_literal (s : string) : option Z :=
  match s with
  | EmptyString => None
  | String c rest =>
      if Ascii.eqb c "+" then unsigned_literal rest
      else if Ascii.eqb c "-" then Z.opp <$> unsigned_literal rest
      else unsigned_literal s
  end.

(** The integer a string writes, when it writes one that fits in 64 bits. *)
Definition int64_literal (s : string) : option Z :=
  match integer_literal s with
  | Some v => if ((- 2 ^ 63 <=? v) && (v <? 2 ^ 63))%Z then Some v else None
  | None => None
  end.

(** What one entry of [*output] may become. *)
Definition overwritten (m : gmap string Merge.sourceMapItem) (sourcePrecedence : bool)
    (e e' : EnvVar) : Prop :=
  e' = e \/
  sourcePrecedence = true /\
  exists v, m !! Name e = Some v /\ e' = set_Value (Merge.value v) e.

(** Sample data. *)
Definition FOO_BAR : list string := ["FOO"; "BAR"].

Definition env (name value : string) : EnvVar :=
  {| Name := name; Value := value; ValueFrom := None |}.

(** An entry of [*output] is matched when its name is a whitelisted name of
    [source]. *)
Definition matched (whitelist : list string) (source : list EnvVar) (e : EnvVar)
    : Prop :=
  Name e ∈ whitelist /\ Name e ∈ Name <$> source.

#[global] Instance matched_dec whitelist source e :
  Decision (matched whitelist source e).
Proof. unfold matched. apply _. Defined.

(** The spellings of ["true"] in upper and lower case. *)
Definition spells_true (s : string) : Prop :=
  exists c1 c2 c3 c4 : ascii,
    s = String c1 (String c2 (String c3 (String c4 EmptyString)))
    /\ (c1 = "t" \/ c1 = "T")%char /\ (c2 = "r" \/ c2 = "R")%char
    /\ (c3 = "u" \/ c3 = "U")%char /\ (c4 = "e" \/ c4 = "E")%char.

(** One iteration for an entry that passed the whitelist. *)
Definition record_entry (st : Merge.filtered) (e : EnvVar) : Merge.filtered :=
  {| Merge.next_index := S (Merge.next_index st);
     Merge.filteredSourceMap :=
       <[Name e := Merge.mkItem (Merge.next_index st) (Value e)]>
         (Merge.filteredSourceMap st);
     Merge.filteredSource := Merge.filteredSource st ++ [e] |}.

(** The call as the caller makes it, through the pointer [output].  The first
    loop reads [source] only; [result := *output] then follows the pointer,
    and a nil pointer panics there, before anything is stored. *)
Definition MergeTrustedEnvWithoutDuplicates_ptr (whitelist : list string)
    (source : list EnvVar) (output : option (list EnvVar)) (sourcePrecedence : bool)
    : go Merge.outcome :=
  result ← deref output;
  mret (Merge.MergeTrustedEnvWithoutDuplicates whitelist source result sourcePrecedence).

(** * Properties *)

(** ** The whitelist filter *)

Section MergeFacts.

Variable whitelist : list string.

Abbreviation acceptable := (Merge.acceptable whitelist).
Abbreviation filter_step := (Merge.filter_step whitelist).
Abbreviation filter_source := (Merge.filter_source whitelist).
Abbreviation merge := (Merge.MergeTrustedEnvWithoutDuplicates whitelist).

Lemma acceptable_in_elem_of (names : list string) (name : string) :
  Merge.acceptable_in names name = true <-> name ∈ names.
Proof.
  induction names as [|a names IH]; simpl.
  - rewrite elem_of_nil. split; [discriminate | tauto].
  - rewrite elem_of_cons. destruct (String.eqb name a) eqn:E.
    + apply String.eqb_eq in E. tauto.
    + apply String.eqb_neq in E. rewrite IH. tauto.
Qed.

Lemma acceptable_elem_of (name : string) :
  acceptable name = true <-> name ∈ whitelist.
Proof. apply acceptable_in_elem_of. Qed.

(** The filtered list is the whitelisted part of [source], in order. *)
Lemma fold_filter_step_list (source : list EnvVar) (st : Merge.filtered) :
  Merge.filteredSource (fold_left filter_step source st)
  = Merge.filteredSource st ++ List.filter (fun e => acceptable (Name e)) source.
Proof.
  revert st. induction source as [|e source IH]; intros st; simpl.
  - by rewrite app_nil_r.
  - rewrite IH. unfold Merge.filter_step.
    destruct (acceptable (Name e)); simpl; [by rewrite <- app_assoc | done].
Qed.

Lemma filter_source_list (source : list EnvVar) :
  Merge.filteredSource (filter_source source)
  = List.filter (fun e => acceptable (Name e)) source.
Proof. unfold Merge.filter_source. by rewrite fold_filter_step_list. Qed.

(** The keys of the lookup are the names of the filtered list. *)
Lemma fold_filter_step_map (source : list EnvVar) (st : Merge.filtered) (k : string) :
  is_Some (Merge.filteredSourceMap (fold_left filter_step source st) !! k)
  <-> is_Some (Merge.filteredSourceMap st !! k)
      \/ k ∈ Name <$> List.filter (fun e => acceptable (Name e)) source.
Proof.
  revert st. induction source as [|e source IH]; intros st; simpl.
  - rewrite elem_of_nil. tauto.
  - rewrite IH. unfold Merge.filter_step.
    destruct (acceptable (Name e)); simpl; [|tauto].
    rewrite elem_of_cons, lookup_insert_is_Some.
    destruct (decide (Name e = k)) as [Heq|Hne]; intuition congruence.
Qed.

Lemma filter_source_map (source : list EnvVar) (k : string) :
  is_Some (Merge.filteredSourceMap (filter_source source) !! k)
  <-> k ∈ Name <$> List.filter (fun e => acceptable (Name e)) source.
Proof.
  unfold Merge.filter_source. rewrite fold_filter_step_map. simpl.
  rewrite lookup_empty. split; [intros [[? H]|H]; [discriminate|done] | by right].
Qed.

Lemma elem_of_whitelisted (source : list EnvVar) (e : EnvVar) :
  e ∈ List.filter (fun e => acceptable (Name e)) source
  <-> e ∈ source /\ Name e ∈ whitelist.
Proof.
  rewrite !list_elem_of_In, filter_In, acceptable_elem_of, list_elem_of_In. tauto.
Qed.

Lemma name_of_whitelisted (source : list EnvVar) (k : string) :
  k ∈ Name <$> List.filter (fun e => acceptable (Name e)) source
  <-> k ∈ whitelist /\ k ∈ Name <$> source.
Proof.
  rewrite !list_elem_of_fmap. split.
  - intros (e & -> & He). apply elem_of_whitelisted in He as [He Hw]. eauto.
  - intros (Hw & e & -> & He). exists e. split; [done|].
    by apply elem_of_whitelisted.
Qed.

(** ** The walk over [*output] *)

Lemma remove_index_sublist (k : nat) (s s' : list EnvVar) :
  Merge.remove_index k s = Return s' -> s' `sublist_of` s.
Proof.
  unfold Merge.remove_index. destruct (k + 1 <=? length s); [|discriminate].
  intros [= <-]. replace (k + 1) with (S k) by lia.
  rewrite <- delete_take_drop. apply sublist_delete.
Qed.

Lemma walk_entries m flag (result fsrc : list EnvVar) :
  Forall2 (overwritten m flag) result (Merge.walk m flag result fsrc).1.
Proof.
  revert fsrc. induction result as [|e result IH]; intros fsrc; simpl; [constructor|].
  destruct (m !! Name e) as [v|] eqn:Hm.
  - assert (overwritten m flag e (if flag then set_Value (Merge.value v) e else e)) as Hov.
    { destruct flag; [right; eauto | by left]. }
    destruct (Merge.remove_index (Merge.index v) fsrc) as [fsrc'|p].
    + specialize (IH fsrc'). destruct (Merge.walk m flag result fsrc'); simpl in *.
      by constructor.
    + simpl. constructor; [done|].
      apply Forall2_same_length_lookup_2; [done|]. intros i x y Hx Hy.
      left. congruence.
  - specialize (IH fsrc). destruct (Merge.walk m flag result fsrc); simpl in *.
    constructor; [by left | done].
Qed.

Lemma walk_rest m flag (result fsrc rest : list EnvVar) :
  (Merge.walk m flag result fsrc).2 = Return rest -> rest `sublist_of` fsrc.
Proof.
  revert fsrc. induction result as [|e result IH]; intros fsrc; simpl.
  - by intros [= <-].
  - destruct (m !! Name e) as [v|].
    + destruct (Merge.remove_index (Merge.index v) fsrc) as [fsrc'|p] eqn:Hr;
        [|discriminate].
      specialize (IH fsrc'). destruct (Merge.walk m flag result fsrc'); simpl in *.
      intros H. etrans; [by apply IH | by eapply remove_index_sublist].
    + specialize (IH fsrc). by destruct (Merge.walk m flag result fsrc).
Qed.


Lemma overwritten_names m flag (l l' : list EnvVar) :
  Forall2 (overwritten m flag) l l' -> Name <$> l' = Name <$> l.
Proof.
  induction 1 as [|e e' l l' H _ IH]; [done|]. simpl. f_equal; [|done].
  destruct H as [->|(_ & v & _ & ->)]; done.
Qed.

(** The final [*output], split into the array of [result] and what was
    appended to it. *)
Lemma merge_split (source output : list EnvVar) (flag : bool) :
  let m := Merge.filteredSourceMap (filter_source source) in
  exists kept added,
    Merge.final_output (merge source output flag) = kept ++ added
    /\ Forall2 (overwritten m flag) output kept
    /\ added `sublist_of` List.filter (fun e => acceptable (Name e)) source.
Proof.
  intros m. unfold Merge.MergeTrustedEnvWithoutDuplicates. fold m.
  pose proof (walk_entries m flag output (Merge.filteredSource (filter_source source))) as He.
  pose proof (walk_rest m flag output (Merge.filteredSource (filter_source source))) as Hr.
  destruct (Merge.walk m flag output (Merge.filteredSource (filter_source source)))
    as [kept [rest|p]]; simpl in *.
  - exists kept, rest. rewrite <- filter_source_list. auto.
  - exists kept, []. rewrite app_nil_r. split_and!; [done..|apply sublist_nil_l].
Qed.

End MergeFacts.

(** ** MergeTrustedEnvWithoutDuplicates: what reaches [*output] *)

(** The two merges worked out in the specification. *)
Lemma merge_example_source_precedence :
  Merge.MergeTrustedEnvWithoutDuplicates FOO_BAR
    [env "FOO" "1"; env "BAZ" "x"; env "BAR" "2"] [env "FOO" "0"] true
  = Merge.Returned [env "FOO" "1"; env "BAR" "2"].
Proof. vm_compute. reflexivity. Qed.

Lemma merge_example_output_precedence :
  Merge.MergeTrustedEnvWithoutDuplicates FOO_BAR
    [env "FOO" "1"; env "BAZ" "x"; env "BAR" "2"] [env "FOO" "0"] false
  = Merge.Returned [env "FOO" "0"; env "BAR" "2"].
Proof. vm_compute. reflexivity. Qed.

(** C1. Whatever the call does, the final [*output] is the original entries
    (names unchanged) followed by appended entries; every appended entry is an
    entry of [source] with a whitelisted name, and every name of the final
    [*output] that the original [*output] did not have is whitelisted. *)
Theorem merge_adds_only_whitelisted (whitelist : list string)
    (source output : list EnvVar) (sourcePrecedence : bool) :
  exists kept added,
    Merge.final_output
      (Merge.MergeTrustedEnvWithoutDuplicates whitelist source output sourcePrecedence)
    = kept ++ added
    /\ Name <$> kept = Name <$> output
    /\ Forall (fun e => e ∈ source /\ Name e ∈ whitelist) added
    /\ (forall e, e ∈ kept ++ added -> Name e ∉ Name <$> output -> Name e ∈ whitelist).
Proof.
  destruct (merge_split whitelist source output sourcePrecedence)
    as (kept & added & Hfinal & Hkept & Hadded).
  assert (Forall (fun e => e ∈ source /\ Name e ∈ whitelist) added) as Hwl.
  { apply Forall_forall. intros e He.
    apply (elem_of_whitelisted whitelist). by apply (sublist_subseteq _ _ Hadded). }
  apply overwritten_names in Hkept.
  exists kept, added. split_and!; [done..|].
  intros e He Hnew. apply elem_of_app in He as [He|He].
  - exfalso. apply Hnew. rewrite <- Hkept. by apply list_elem_of_fmap_2.
  - rewrite Forall_forall in Hwl. by apply Hwl.
Qed.

Lemma merge_adds_only_whitelisted_witness :
  Merge.MergeTrustedEnvWithoutDuplicates FOO_BAR
    [env "FOO" "1"; env "BAZ" "x"; env "BAR" "2"] [env "FOO" "0"] true
  = Merge.Returned [env "FOO" "1"; env "BAR" "2"]
  /\ "BAR" ∈ FOO_BAR.
Proof.
  split; [reflexivity|].
  destruct (merge_adds_only_whitelisted FOO_BAR
              [env "FOO" "1"; env "BAZ" "x"; env "BAR" "2"] [env "FOO" "0"] true)
    as (kept & added & Hfinal & _ & _ & Hnew).
  apply (Hnew (env "BAR" "2")).
  - rewrite <- Hfinal. apply list_elem_of_In. vm_compute. right. left. reflexivity.
  - intros H. apply list_elem_of_In in H. vm_compute in H.
    destruct H as [H|[]]. discriminate H.
Defined.

(** C4. An entry of the original [*output] keeps its position, its name and
    its [ValueFrom]; it is unchanged when [sourcePrecedence] is false and when
    its name is not a whitelisted name of [source]. *)
Theorem merge_frame (whitelist : list string) (source output : list EnvVar)
    (sourcePrecedence : bool) (i : nat) (e : EnvVar) :
  output !! i = Some e ->
  exists e',
    Merge.final_output
      (Merge.MergeTrustedEnvWithoutDuplicates whitelist source output sourcePrecedence)
    !! i = Some e'
    /\ Name e' = Name e
    /\ ValueFrom e' = ValueFrom e
    /\ (sourcePrecedence = false -> e' = e)
    /\ (~ (Name e ∈ whitelist /\ Name e ∈ Name <$> source) -> e' = e).
Proof.
  intros Hi.
  destruct (merge_split whitelist source output sourcePrecedence)
    as (kept & added & -> & Hkept & _).
  destruct (Forall2_lookup_l _ _ _ _ _ Hkept Hi) as (e' & He' & Hov).
  exists e'. split; [by apply lookup_app_l_Some|].
  destruct Hov as [->|(Hflag & v & Hv & ->)]; [done|].
  split_and!; [done..| |].
  - intros ->. discriminate.
  - intros Hno. exfalso. apply Hno.
    apply (name_of_whitelisted whitelist), filter_source_map. by exists v.
Qed.

Lemma merge_frame_witness :
  [env "PATH" "/bin"; env "FOO" "0"] !! 0 = Some (env "PATH" "/bin")
  /\ exists e',
       Merge.final_output
         (Merge.MergeTrustedEnvWithoutDuplicates FOO_BAR
            [env "FOO" "1"; env "PATH" "/evil"] [env "PATH" "/bin"; env "FOO" "0"] true)
       !! 0 = Some e'
       /\ e' = env "PATH" "/bin".
Proof.
  split; [reflexivity|].
  destruct (merge_frame FOO_BAR [env "FOO" "1"; env "PATH" "/evil"]
              [env "PATH" "/bin"; env "FOO" "0"] true 0 (env "PATH" "/bin") eq_refl)
    as (e' & He' & _ & _ & _ & Hsame).
  exists e'. split; [exact He'|]. apply Hsame.
  intros [Hwl _]. apply list_elem_of_In in Hwl. vm_compute in Hwl.
  destruct Hwl as [H|[H|[]]]; discriminate H.
Defined.


(** ** MergeTrustedEnvWithoutDuplicates: the recorded positions *)

(** X9. Whatever the whitelist, two of its names that [source] and [*output]
    both list in the same order stop the call. *)
Lemma merge_two_matched_names (whitelist : list string) (a b va vb oa ob : string)
    (flag : bool) :
  a ≠ b -> a ∈ whitelist -> b ∈ whitelist ->
  Merge.MergeTrustedEnvWithoutDuplicates whitelist
    [env a va; env b vb] [env a oa; env b ob] flag
  = Merge.Panicked SliceBoundsOutOfRange
      [env a (if flag then va else oa); env b (if flag then vb else ob)].
Proof.
  intros Hne Ha Hb.
  apply acceptable_elem_of in Ha, Hb.
  unfold Merge.MergeTrustedEnvWithoutDuplicates, Merge.filter_source. simpl.
  unfold Merge.filter_step. simpl. rewrite Ha. simpl. rewrite Hb. simpl.
  rewrite lookup_insert_ne by done. rewrite lookup_insert_eq. simpl.
  rewrite lookup_insert_eq. simpl. by destruct flag.
Qed.

(** Both are appended to an empty [*output], which a second call then meets. *)
Lemma merge_into_empty (whitelist : list string) (a b va vb : string) (flag : bool) :
  a ∈ whitelist -> b ∈ whitelist ->
  Merge.MergeTrustedEnvWithoutDuplicates whitelist [env a va; env b vb] [] flag
  = Merge.Returned [env a va; env b vb].
Proof.
  intros Ha Hb.
  apply acceptable_elem_of in Ha, Hb.
  unfold Merge.MergeTrustedEnvWithoutDuplicates, Merge.filter_source. simpl.
  unfold Merge.filter_step. simpl. rewrite Ha. simpl. by rewrite Hb.
Qed.

(** C2. The position recorded for a name is the one it had in the filtered
    list before any removal.  With [FOO] and [BAR] both in [*output], removing
    [FOO] at 0 leaves one element, and the removal of [BAR] at its recorded
    position 1 slices out of range.  With three names the second removal
    takes the wrong element: [B], matched, is appended and [C] is lost. *)
Theorem merge_removes_by_stale_index :
  Merge.MergeTrustedEnvWithoutDuplicates FOO_BAR
    [env "FOO" "1"; env "BAR" "2"] [env "FOO" "0"; env "BAR" "0"] true
  = Merge.Panicked SliceBoundsOutOfRange [env "FOO" "1"; env "BAR" "2"]
  /\ Merge.MergeTrustedEnvWithoutDuplicates ["A"; "B"; "C"]
       [env "A" "1"; env "B" "2"; env "C" "3"] [env "A" "0"; env "B" "0"] true
     = Merge.Returned [env "A" "1"; env "B" "2"; env "B" "2"].
Proof. split; vm_compute; reflexivity. Qed.

(** C3. A second merge of the same [source] into the result of a first one
    does not return: both whitelisted names are now in [*output], and the
    second removal slices out of range. *)
Theorem merge_twice_panics :
  let source := [env "FOO" "1"; env "BAZ" "x"; env "BAR" "2"] in
  let once := [env "FOO" "1"; env "BAR" "2"] in
  Merge.MergeTrustedEnvWithoutDuplicates FOO_BAR source [env "FOO" "0"] true
  = Merge.Returned once
  /\ Merge.MergeTrustedEnvWithoutDuplicates FOO_BAR source once true
     = Merge.Panicked SliceBoundsOutOfRange once.
Proof. split; vm_compute; reflexivity. Qed.

(** ** GetInputReference *)

(** C5, as stated, fails: a docker strategy whose [From] is nil is set, and
    the result is nil. *)
Lemma GetInputReference_nil_with_docker_set :
  ~ (GetInputReference docker_without_from = None
     <-> no_variant_set docker_without_from).
Proof.
  intros [Hnil _]. destruct (Hnil eq_refl) as (_ & Hdocker & _). discriminate Hdocker.
Qed.

(** C5, amended. The variants are tried in the order source, docker, custom;
    the result is the address of [From] for a source or custom strategy and
    the pointer held in [From] for a docker strategy.  It is nil exactly when
    no variant is set or the docker strategy is the one chosen and its [From]
    is nil. *)
Theorem GetInputReference_first_set (strategy : BuildStrategy) :
  GetInputReference strategy
  = match SourceStrategy strategy, DockerStrategy strategy, CustomStrategy strategy with
    | Some source, _, _ => Some (SourceFrom source)
    | None, Some docker, _ => DockerFrom docker
    | None, None, Some custom => Some (CustomFrom custom)
    | None, None, None => None
    end
  /\ (GetInputReference strategy = None
      <-> no_variant_set strategy
          \/ (SourceStrategy strategy = None
              /\ exists docker, DockerStrategy strategy = Some docker
                                /\ DockerFrom docker = None)).
Proof.
  unfold GetInputReference, no_variant_set.
  destruct strategy as [[docker|] [source|] [custom|]]; simpl;
    (split; [reflexivity|]); split; try discriminate; eauto;
    try (intros [(H1 & H2 & H3)|(H1 & d & H2 & H3)]; congruence).
Qed.

Lemma GetInputReference_first_set_witness :
  GetInputReference docker_without_from = None.
Proof.
  apply (proj2 (GetInputReference_first_set docker_without_from)).
  right. split; [reflexivity|]. eexists. split; reflexivity.
Defined.

(** ** ConfigNameForBuild *)

(** C6. Nil gives the empty string; otherwise the annotation decides if its
    key exists, else the label of the current scheme if its key exists, else
    the label of the deprecated scheme, with the empty string for a missing
    key. *)
Theorem ConfigNameForBuild_priority
    (BuildConfigAnnotation BuildConfigLabel BuildConfigLabelDeprecated : string) :
  ConfigNameForBuild BuildConfigAnnotation BuildConfigLabel
    BuildConfigLabelDeprecated None = ""
  /\ forall build : Build,
       ConfigNameForBuild BuildConfigAnnotation BuildConfigLabel
         BuildConfigLabelDeprecated (Some build)
       = match lookup_in (ObjectMeta.Annotations (BuildMeta build)) BuildConfigAnnotation with
         | Some name => name
         | None =>
             match lookup_in (ObjectMeta.Labels (BuildMeta build)) BuildConfigLabel with
             | Some name => name
             | None =>
                 default "" (lookup_in (ObjectMeta.Labels (BuildMeta build))
                               BuildConfigLabelDeprecated)
             end
         end.
Proof.
  split; [reflexivity|]. intros [[name ns labels annotations] phase]. simpl.
  unfold map_index, map_get, lookup_in.
  destruct annotations as [a|]; simpl.
  - destruct (a !! BuildConfigAnnotation); simpl; [done|].
    destruct labels as [l|]; simpl; [|done].
    destruct (l !! BuildConfigLabel); simpl; [done|].
    by destruct (l !! BuildConfigLabelDeprecated).
  - destruct labels as [l|]; simpl; [|done].
    destruct (l !! BuildConfigLabel); simpl; [done|].
    by destruct (l !! BuildConfigLabelDeprecated).
Qed.

(** ** BuildConfigBuilds *)

Lemma fold_filter_items (filterFunc : Build -> bool) (items acc : list Build) :
  fold_left (fun acc b => if filterFunc b then acc ++ [b] else acc) items acc
  = acc ++ List.filter filterFunc items.
Proof.
  revert acc. induction items as [|b items IH]; intros acc; simpl.
  - by rewrite app_nil_r.
  - rewrite IH. destruct (filterFunc b); [by rewrite <- app_assoc | done].
Qed.

Lemma filter_items_filter (filterFunc : Build -> bool) (items : list Build) :
  filter_items filterFunc items = List.filter filterFunc items.
Proof. unfold filter_items. by rewrite fold_filter_items. Qed.

(** C8, as stated, fails for a lister that gives neither a list nor an error:
    with a filter the call follows the nil list and panics. *)
Lemma BuildConfigBuilds_nil_list_panics :
  BuildConfigBuilds "label" id (fun _ _ => (None, None)) "ns" "bc"
    (Some (fun _ => true))
  = Panic NilDereference.
Proof. reflexivity. Qed.

(** C8, amended. The lister is asked once, with the selector of the current
    scheme.  Its error is handed on with no list; without a filter its list
    is handed on as it is; with a filter and a list the answer is a list with
    the same [TypeMeta] and [ListMeta] whose items are the ones the filter
    accepts, in order; with a filter and neither a list nor an error the call
    follows a nil pointer and panics. *)
Theorem BuildConfigBuilds_result (BuildConfigLabel : string)
    (LabelValue : string -> string) (c : BuildLister) (namespace name : string)
    (filterFunc : buildFilter) :
  let answer :=
    c namespace
      {| LabelSelector := BuildConfigSelector BuildConfigLabel LabelValue name |} in
  BuildConfigBuilds BuildConfigLabel LabelValue c namespace name filterFunc
  = match answer.2, filterFunc, answer.1 with
    | Some err, _, _ => Return (None, Some err)
    | None, None, result => Return (result, None)
    | None, Some f, Some result =>
        Return (Some {| ListTypeMeta := ListTypeMeta result;
                        ListListMeta := ListListMeta result;
                        Items := List.filter f (Items result) |}, None)
    | None, Some f, None => Panic NilDereference
    end.
Proof.
  unfold BuildConfigBuilds.
  destruct (c namespace _) as [result [err|]]; simpl; [done|].
  destruct filterFunc as [f|]; [|done].
  destruct result as [result|]; simpl; [|done].
  by rewrite filter_items_filter.
Qed.

(** ** Nil arguments *)

(** C9. [IsBuildComplete], [IsPaused], [BuildNumber] and [BuildRunPolicy]
    follow their argument unguarded: nil panics, anything else returns.
    [ConfigNameForBuild], [VersionForBuild] and [GetBuildName] test for nil
    and answer with the zero value. *)
Theorem nil_arguments
    (BuildAnnotation BuildConfigPausedAnnotation BuildNumberAnnotation
     BuildConfigAnnotation BuildConfigLabel BuildConfigLabelDeprecated
     BuildRunPolicyLabel : string)
    (BuildPhaseRunning BuildPhasePending BuildPhaseNew : BuildPhase) (IntSize : Z) :
  (IsBuildComplete BuildPhaseRunning BuildPhasePending BuildPhaseNew None
   = Panic NilDereference
   /\ IsPaused BuildConfigPausedAnnotation None = Panic NilDereference
   /\ BuildNumber BuildNumberAnnotation None = Panic NilDereference
   /\ BuildRunPolicy BuildRunPolicyLabel None = Panic NilDereference)
  /\ (forall build : Build,
        returns (IsBuildComplete BuildPhaseRunning BuildPhasePending BuildPhaseNew
                   (Some build)) = true
        /\ returns (BuildNumber BuildNumberAnnotation (Some build)) = true
        /\ returns (BuildRunPolicy BuildRunPolicyLabel (Some build)) = true)
  /\ (forall bc : BuildConfig,
        returns (IsPaused BuildConfigPausedAnnotation (Some bc)) = true)
  /\ ConfigNameForBuild BuildConfigAnnotation BuildConfigLabel
       BuildConfigLabelDeprecated None = ""
  /\ VersionForBuild BuildNumberAnnotation IntSize None = 0%Z
  /\ GetBuildName BuildAnnotation None = "".
Proof.
  split_and!; try reflexivity.
  intros build. split_and!; [reflexivity | |].
  - unfold BuildNumber. simpl.
    by destruct (map_get _ BuildNumberAnnotation) as [s []].
  - unfold BuildRunPolicy. simpl.
    destruct (map_get _ BuildRunPolicyLabel) as [value []]; [|done].
    by repeat case_match.
Qed.

(** ** strconv.ParseInt reads the base-10 integers of 64 bits *)

Section ParseInt.

Local Open Scope Z_scope.

Lemma is_digit_byte (c : ascii) :
  is_digit c
  = (strconv.byte_of "0" <=? strconv.byte_of c) && (strconv.byte_of c <=? strconv.byte_of "9").
Proof.
  unfold is_digit, strconv.byte_of. change (Z.of_N (N_of_ascii "0")) with 48.
  change (Z.of_N (N_of_ascii "9")) with 57.
  destruct (N.leb_spec 48 (N_of_ascii c)), (Z.leb_spec 48 (Z.of_N (N_of_ascii c)));
    try lia; simpl;
    destruct (N.leb_spec (N_of_ascii c) 57), (Z.leb_spec (Z.of_N (N_of_ascii c)) 57);
    try lia; reflexivity.
Qed.

Lemma is_digit_range (c : ascii) :
  is_digit c = true -> 0 <= Z.of_N (N_of_ascii c) - 48 <= 9.
Proof.
  unfold is_digit. intros H. apply andb_true_iff in H as [H1 H2].
  apply N.leb_le in H1, H2. lia.
Qed.

Lemma decimal_ge (s : string) (acc v : Z) :
  0 <= acc -> decimal s acc = Some v -> acc <= v.
Proof.
  revert acc. induction s as [|c s IH]; intros acc Hacc; simpl.
  - intros [= <-]. lia.
  - destruct (is_digit c) eqn:Hc; [|discriminate].
    apply is_digit_range in Hc. intros H. apply IH in H; lia.
Qed.

(** The digit loop against the number the digits write. *)
Lemma digits_decimal (s : string) (n : Z) :
  0 <= n < 2 ^ 64 ->
  match decimal s n with
  | Some v =>
      strconv.digits 64 s n
      = if v <? 2 ^ 64 then (v, None) else (strconv.maxUint64, Some strconv.ErrRange)
  | None =>
      strconv.digits 64 s n = (0, Some strconv.ErrSyntax)
      \/ strconv.digits 64 s n = (strconv.maxUint64, Some strconv.ErrRange)
  end.
Proof.
  revert n. induction s as [|c s IH]; intros n Hn; simpl.
  - destruct (Z.ltb_spec n (2 ^ 64)); [done | lia].
  - rewrite <- is_digit_byte. destruct (is_digit c) eqn:Hc; [|by left].
    apply is_digit_range in Hc.
    change (strconv.byte_of c - strconv.byte_of "0") with (Z.of_N (N_of_ascii c) - 48).
    set (d := Z.of_N (N_of_ascii c) - 48) in *.
    change (strconv.maxUint64 / 10 + 1) with 1844674407370955162.
    change (2 ^ 64) with 18446744073709551616 in *.
    destruct (Z.leb_spec 1844674407370955162 n) as [Hcut|Hcut].
    { (* n * 10 is past uint64 *)
      destruct (decimal s (n * 10 + d)) as [v|] eqn:Hv; [|by right].
      apply decimal_ge in Hv; [|lia].
      destruct (Z.ltb_spec v 18446744073709551616); [lia | done]. }
    destruct (Z.ltb_spec ((n * 10 + d) mod 18446744073709551616) (n * 10)) as [Hwrap|Hwrap];
      simpl.
    { (* the sum wrapped around *)
      assert (18446744073709551616 <= n * 10 + d) as Hbig.
      { destruct (Z.lt_ge_cases (n * 10 + d) 18446744073709551616) as [Hs|]; [|done].
        rewrite Z.mod_small in Hwrap by lia. lia. }
      destruct (decimal s (n * 10 + d)) as [v|] eqn:Hv; [|by right].
      apply decimal_ge in Hv; [|lia].
      destruct (Z.ltb_spec v 18446744073709551616); [lia | done]. }
    assert (n * 10 + d < 18446744073709551616) as Hsmall.
    { destruct (Z.lt_ge_cases (n * 10 + d) 18446744073709551616) as [|Hs]; [done|].
      assert ((n * 10 + d) mod 18446744073709551616
              = n * 10 + d - 18446744073709551616) as Hm.
      { symmetry. apply (Z.mod_unique_pos _ _ 1); lia. }
      lia. }
    rewrite Z.mod_small in * by lia.
    destruct (Z.ltb_spec (18446744073709551616 - 1) (n * 10 + d)); [lia|].
    apply IH. lia.
Qed.

Lemma ParseUint_unsigned_literal (s : string) :
  match unsigned_literal s with
  | Some v =>
      0 <= v
      /\ strconv.ParseUint s 64
         = if v <? 2 ^ 64 then (v, None) else (strconv.maxUint64, Some strconv.ErrRange)
  | None =>
      strconv.ParseUint s 64 = (0, Some strconv.ErrSyntax)
      \/ strconv.ParseUint s 64 = (strconv.maxUint64, Some strconv.ErrRange)
  end.
Proof.
  destruct s as [|c s]; [by left|].
  unfold unsigned_literal, strconv.ParseUint.
  pose proof (digits_decimal (String c s) 0 (conj (Z.le_refl 0) eq_refl)) as H.
  destruct (decimal (String c s) 0) eqn:Hd; [|done].
  split; [by eapply (decimal_ge _ 0) | done].
Qed.

(** What [ParseInt] makes of the sign and of the answer of [ParseUint]. *)
Lemma ParseInt_sign (c : ascii) (rest : string) :
  let neg := Ascii.eqb c "-" in
  let digits := if Ascii.eqb c "+" || neg then rest else String c rest in
  strconv.ParseInt (String c rest) 64
  = match strconv.ParseUint digits 64 with
    | (_, Some strconv.ErrSyntax) => (0, Some strconv.ErrSyntax)
    | (un, _) =>
        if negb neg && (2 ^ 63 <=? un) then (2 ^ 63 - 1, Some strconv.ErrRange)
        else if neg && (2 ^ 63 <? un) then (- 2 ^ 63, Some strconv.ErrRange)
        else (if neg then - un else un, None)
    end
  /\ integer_literal (String c rest)
     = (if neg then Z.opp else id) <$> unsigned_literal digits.
Proof.
  split; [reflexivity|].
  unfold integer_literal.
  destruct (Ascii.eqb_spec c "+") as [->|Hp]; cbn [orb].
  - change (Ascii.eqb "+" "-") with false. by destruct (unsigned_literal rest).
  - destruct (Ascii.eqb c "-"); [done|]. by destruct (unsigned_literal _).
Qed.

(** [ParseInt] succeeds on the strings that write an integer of 64 bits, with
    that integer, and fails on every other string. *)
Lemma ParseInt_int64_literal (s : string) :
  match int64_literal s with
  | Some v => strconv.ParseInt s 64 = (v, None)
  | None => exists n e, strconv.ParseInt s 64 = (n, Some e)
  end.
Proof.
  unfold int64_literal.
  destruct s as [|c rest]; [simpl; eauto|].
  destruct (ParseInt_sign c rest) as [-> ->].
  set (neg := Ascii.eqb c "-").
  set (ds := if Ascii.eqb c "+" || neg then rest else String c rest).
  pose proof (ParseUint_unsigned_literal ds) as Hu.
  change (2 ^ 64) with 18446744073709551616 in Hu.
  change (2 ^ 63) with 9223372036854775808.
  change strconv.maxUint64 with 18446744073709551615 in Hu.
  destruct (unsigned_literal ds) as [v|]; simpl.
  - destruct Hu as [Hv ->].
    destruct neg; simpl;
      repeat match goal with
             | |- context [Z.ltb ?a ?b] => destruct (Z.ltb_spec a b)
             | |- context [Z.leb ?a ?b] => destruct (Z.leb_spec a b)
             end; simpl; try lia; eauto.
  - destruct Hu as [-> | ->]; [eauto|]. destruct neg; simpl; eauto.
Qed.

End ParseInt.

(** ** strconv.ParseInt at the width of [int] *)

Section ParseIntWidth.

Local Open Scope Z_scope.

Variable bits : Z.
Hypothesis bits_range : 1 <= bits <= 64.

Lemma width_bounds :
  1 <= 2 ^ (bits - 1) <= 9223372036854775808 /\ 2 ^ bits = 2 * 2 ^ (bits - 1).
Proof.
  split.
  - split.
    + apply (Z.pow_le_mono_r 2 0 (bits - 1)); lia.
    + change 9223372036854775808 with (2 ^ 63). apply Z.pow_le_mono_r; lia.
  - rewrite <- Z.pow_succ_r by lia. f_equal. lia.
Qed.

(** The digit loop at any width up to 64. *)
Lemma digits_decimal_width (s : string) (n : Z) :
  0 <= n < 2 ^ bits ->
  match decimal s n with
  | Some v =>
      strconv.digits bits s n
      = if v <? 2 ^ bits then (v, None) else (strconv.maxUint64, Some strconv.ErrRange)
  | None =>
      strconv.digits bits s n = (0, Some strconv.ErrSyntax)
      \/ strconv.digits bits s n = (strconv.maxUint64, Some strconv.ErrRange)
  end.
Proof.
  destruct width_bounds as [Hhalf Hfull].
  remember (2 ^ (bits - 1)) as C eqn:HC. remember (2 ^ bits) as M eqn:HM.
  clear HC. revert n. induction s as [|c s IH]; intros n Hn; simpl.
  - clear HM. destruct (Z.ltb_spec n M); [done | lia].
  - rewrite <- is_digit_byte. destruct (is_digit c) eqn:Hc; [|by left].
    apply is_digit_range in Hc.
    change (strconv.byte_of c - strconv.byte_of "0") with (Z.of_N (N_of_ascii c) - 48).
    set (d := Z.of_N (N_of_ascii c) - 48) in *.
    change (strconv.maxUint64 / 10 + 1) with 1844674407370955162.
    change (2 ^ 64) with 18446744073709551616. rewrite <- HM. clear HM.
    destruct (Z.leb_spec 1844674407370955162 n) as [Hcut|Hcut].
    { destruct (decimal s (n * 10 + d)) as [v|] eqn:Hv; [|by right].
      apply decimal_ge in Hv; [|lia].
      destruct (Z.ltb_spec v M); [lia | done]. }
    destruct (Z.ltb_spec ((n * 10 + d) mod 18446744073709551616) (n * 10)) as [Hwrap|Hwrap];
      simpl.
    { assert (18446744073709551616 <= n * 10 + d) as Hbig.
      { destruct (Z.lt_ge_cases (n * 10 + d) 18446744073709551616) as [Hs|]; [|done].
        rewrite Z.mod_small in Hwrap by lia. lia. }
      destruct (decimal s (n * 10 + d)) as [v|] eqn:Hv; [|by right].
      apply decimal_ge in Hv; [|lia].
      destruct (Z.ltb_spec v M); [lia | done]. }
    assert (n * 10 + d < 18446744073709551616) as Hsmall.
    { destruct (Z.lt_ge_cases (n * 10 + d) 18446744073709551616) as [|Hs]; [done|].
      assert ((n * 10 + d) mod 18446744073709551616
              = n * 10 + d - 18446744073709551616) as Hm.
      { symmetry. apply (Z.mod_unique_pos _ _ 1); lia. }
      lia. }
    rewrite Z.mod_small in * by lia.
    destruct (Z.ltb_spec (M - 1) (n * 10 + d)) as [Hover|Hfit].
    { destruct (decimal s (n * 10 + d)) as [v|] eqn:Hv; [|by right].
      apply decimal_ge in Hv; [|lia].
      destruct (Z.ltb_spec v M); [lia | done]. }
    apply IH. lia.
Qed.

Lemma ParseUint_unsigned_literal_width (s : string) :
  match unsigned_literal s with
  | Some v =>
      0 <= v
      /\ strconv.ParseUint s bits
         = if v <? 2 ^ bits then (v, None) else (strconv.maxUint64, Some strconv.ErrRange)
  | None =>
      strconv.ParseUint s bits = (0, Some strconv.ErrSyntax)
      \/ strconv.ParseUint s bits = (strconv.maxUint64, Some strconv.ErrRange)
  end.
Proof.
  destruct width_bounds as [Hhalf Hfull].
  destruct s as [|c s]; [by left|].
  unfold unsigned_literal, strconv.ParseUint.
  pose proof (digits_decimal_width (String c s) 0) as H.
  remember (2 ^ (bits - 1)) as C eqn:HC. remember (2 ^ bits) as M eqn:HM.
  clear HC HM. specialize (H ltac:(lia)).
  destruct (decimal (String c s) 0) eqn:Hd; [|done].
  split; [by eapply (decimal_ge _ 0) | done].
Qed.

(** [ParseInt] at that width gives the integer a string writes when it fits
    the width, and an error for every other string. *)
Lemma ParseInt_integer_literal (s : string) :
  match integer_literal s with
  | Some v =>
      if (- 2 ^ (bits - 1) <=? v) && (v <? 2 ^ (bits - 1))
      then strconv.ParseInt s bits = (v, None)
      else exists n e, strconv.ParseInt s bits = (n, Some e)
  | None => exists n e, strconv.ParseInt s bits = (n, Some e)
  end.
Proof.
  destruct width_bounds as [Hhalf Hfull].
  destruct s as [|c rest]; [simpl; eauto|].
  assert (integer_literal (String c rest)
          = (if Ascii.eqb c "-" then Z.opp else id)
              <$> unsigned_literal
                    (if Ascii.eqb c "+" || Ascii.eqb c "-" then rest else String c rest))
    as ->.
  { unfold integer_literal.
    destruct (Ascii.eqb_spec c "+") as [->|Hp]; cbn [orb].
    - change (Ascii.eqb "+" "-") with false. by destruct (unsigned_literal rest).
    - destruct (Ascii.eqb c "-"); [done|]. by destruct (unsigned_literal _). }
  unfold strconv.ParseInt.
  set (neg := Ascii.eqb c "-").
  set (ds := if Ascii.eqb c "+" || neg then rest else String c rest).
  pose proof (ParseUint_unsigned_literal_width ds) as Hu.
  change strconv.maxUint64 with 18446744073709551615 in Hu.
  rewrite Hfull in Hu. remember (2 ^ (bits - 1)) as C eqn:HC. clear HC Hfull.
  destruct (unsigned_literal ds) as [v|]; simpl.
  - destruct Hu as [Hv ->].
    destruct neg; simpl;
      repeat match goal with
             | |- context [Z.ltb ?a ?b] => destruct (Z.ltb_spec a b)
             | |- context [Z.leb ?a ?b] => destruct (Z.leb_spec a b)
             end; simpl; try lia; eauto.
  - destruct Hu as [-> | ->]; [eauto|].
    destruct neg; simpl;
      repeat match goal with
             | |- context [Z.ltb ?a ?b] => destruct (Z.ltb_spec a b)
             | |- context [Z.leb ?a ?b] => destruct (Z.leb_spec a b)
             end; simpl; try lia; eauto.
Qed.

End ParseIntWidth.

(** ** BuildNumber and VersionForBuild *)

(** C7, amended. [BuildNumber] fails exactly when the annotation is missing,
    with an error whose text holds the namespace and the name of the build,
    or when its value does not write an integer of 64 bits, with the error
    of [ParseInt]; otherwise it gives that integer.  [VersionForBuild] gives
    0 for nil and wherever [BuildNumber] fails; where [BuildNumber] gives a
    number it gives the same number if that fits [int], which it always does
    where [int] has 64 bits, and 0 if it does not. *)
Theorem BuildNumber_VersionForBuild_width (BuildNumberAnnotation : string)
    (IntSize : Z) (build : Build) :
  IntSize = 32%Z \/ IntSize = 64%Z ->
  let meta := BuildMeta build in
  let fits (n : Z) := ((- 2 ^ (IntSize - 1) <=? n) && (n <? 2 ^ (IntSize - 1)))%Z in
  VersionForBuild BuildNumberAnnotation IntSize None = 0%Z
  /\ match lookup_in (ObjectMeta.Annotations meta) BuildNumberAnnotation with
     | None =>
         BuildNumber BuildNumberAnnotation (Some build)
         = Return (0%Z,
                   Some (Errorf ("build " +:+ ObjectMeta.Namespace meta +:+ "/"
                                   +:+ ObjectMeta.Name meta +:+ " does not have "
                                   +:+ BuildNumberAnnotation +:+ " annotation")))
         /\ VersionForBuild BuildNumberAnnotation IntSize (Some build) = 0%Z
     | Some s =>
         BuildNumber BuildNumberAnnotation (Some build) = Return (ParseInt64 s)
         /\ match int64_literal s with
            | Some n =>
                ParseInt64 s = (n, None)
                /\ VersionForBuild BuildNumberAnnotation IntSize (Some build)
                   = (if fits n then n else 0%Z)
                /\ (IntSize = 64%Z ->
                    VersionForBuild BuildNumberAnnotation IntSize (Some build) = n)
            | None =>
                (exists n e, ParseInt64 s = (n, Some (NumError "ParseInt" s e)))
                /\ VersionForBuild BuildNumberAnnotation IntSize (Some build) = 0%Z
            end
     end.
Proof.
  intros Hsize meta fits. split; [reflexivity|]. subst meta.
  assert (1 <= IntSize <= 64)%Z as Hwidth by lia.
  assert (forall v, fits v = true -> (- 2 ^ 63 <= v < 2 ^ 63)%Z) as Hfits.
  { intros v Hv. subst fits. apply andb_true_iff in Hv as [H1 H2].
    apply Z.leb_le in H1. apply Z.ltb_lt in H2.
    destruct Hsize as [-> | ->]; simpl in H1, H2; lia. }
  assert (forall s,
    match int64_literal s with
    | Some n =>
        ParseInt64 s = (n, None)
        /\ (let '(version, err) := strconv.ParseInt s IntSize in
            match err with Some _ => 0%Z | None => version end)
           = (if fits n then n else 0%Z)
        /\ (IntSize = 64%Z ->
            (let '(version, err) := strconv.ParseInt s IntSize in
             match err with Some _ => 0%Z | None => version end) = n)
    | None =>
        (exists n e, ParseInt64 s = (n, Some (NumError "ParseInt" s e)))
        /\ (let '(version, err) := strconv.ParseInt s IntSize in
            match err with Some _ => 0%Z | None => version end) = 0%Z
    end) as Hparse.
  { intros s. pose proof (ParseInt_int64_literal s) as H64.
    pose proof (ParseInt_integer_literal IntSize Hwidth s) as Hw. fold (fits) in Hw.
    unfold ParseInt64, int64_literal in *.
    destruct (integer_literal s) as [v|].
    - fold (fits v) in Hw.
      destruct ((- 2 ^ 63 <=? v) && (v <? 2 ^ 63))%Z eqn:H63.
      + rewrite H64. split; [done|].
        destruct (fits v) eqn:Hv.
        * rewrite Hw. split; [done | done].
        * destruct Hw as (n & e & ->). split; [done|]. intros ->.
          subst fits. change (64 - 1)%Z with 63%Z in Hv. cbv beta in Hv. congruence.
      + destruct H64 as (n & e & ->). split; [simpl; eauto|].
        destruct (fits v) eqn:Hv.
        * apply Hfits in Hv. apply andb_false_iff in H63 as [H|H];
            [apply Z.leb_gt in H | apply Z.ltb_ge in H]; lia.
        * by destruct Hw as (n' & e' & ->).
    - destruct H64 as (n & e & ->). split; [simpl; eauto|].
      by destruct Hw as (n' & e' & ->). }
  destruct build as [[name ns labels annotations] phase]. simpl.
  unfold BuildNumber, VersionForBuild, map_index, map_get, lookup_in, strconv.Atoi.
  simpl.
  destruct annotations as [a|]; simpl; [|done].
  destruct (a !! BuildNumberAnnotation) as [s|]; simpl; [|done].
  split; [done | apply Hparse].
Qed.

Lemma BuildNumber_VersionForBuild_width_witness :
  (32 = 32 \/ 32 = 64)%Z /\ VersionForBuild "number" 32 None = 0%Z.
Proof.
  split; [left; reflexivity|].
  apply (proj1 (BuildNumber_VersionForBuild_width "number" 32
                  {| BuildMeta := ObjectMeta.mk "b" "ns" None None; Phase := "New" |}
                  (or_introl eq_refl))).
Defined.

(** C7, as stated, fails where [int] has 32 bits: on a number that fits 64
    bits only, [BuildNumber] gives the number and [VersionForBuild] gives 0,
    not the number. *)
Remark VersionForBuild_int32 :
  let build :=
    {| BuildMeta :=
         {| ObjectMeta.Name := "b"; ObjectMeta.Namespace := "ns";
            ObjectMeta.Labels := None;
            ObjectMeta.Annotations := Some {[ "number" := "2147483648" ]} |};
       Phase := "New" |} in
  BuildNumber "number" (Some build) = Return (2147483648%Z, None)
  /\ VersionForBuild "number" 32 (Some build) = 0%Z
  /\ VersionForBuild "number" 64 (Some build) = 2147483648%Z.
Proof. split_and!; vm_compute; reflexivity. Qed.

(** * Further properties *)

(** ** MergeTrustedEnvWithoutDuplicates: the lookup and the filtered list *)

Section MergeMore.

Variable whitelist : list string.

Abbreviation acceptable := (Merge.acceptable whitelist).
Abbreviation whitelisted := (List.filter (fun e => Merge.acceptable whitelist (Name e))).
Abbreviation merge := (Merge.MergeTrustedEnvWithoutDuplicates whitelist).

Lemma fold_filter_step_record (source : list EnvVar) (st : Merge.filtered) :
  fold_left (Merge.filter_step whitelist) source st
  = fold_left record_entry (whitelisted source) st.
Proof.
  revert st. induction source as [|e source IH]; intros st; simpl; [done|].
  rewrite IH. unfold Merge.filter_step. by destruct (acceptable (Name e)).
Qed.

Lemma fold_record_other (l : list EnvVar) (st : Merge.filtered) (k : string) :
  (forall x, x ∈ l -> Name x ≠ k) ->
  Merge.filteredSourceMap (fold_left record_entry l st) !! k
  = Merge.filteredSourceMap st !! k.
Proof.
  revert st. induction l as [|x l IH]; intros st Hl; simpl; [done|].
  rewrite IH by (intros y Hy; apply Hl; by right).
  simpl. apply lookup_insert_ne, Hl. by left.
Qed.

(** The lookup keeps, for a name, the position and the value of the last
    entry of that name. *)
Lemma fold_record_last (before after : list EnvVar) (s : EnvVar) (st : Merge.filtered) :
  (forall x, x ∈ after -> Name x ≠ Name s) ->
  Merge.filteredSourceMap (fold_left record_entry (before ++ s :: after) st) !! Name s
  = Some (Merge.mkItem (Merge.next_index st + length before) (Value s)).
Proof.
  revert st. induction before as [|x before IH]; intros st Hafter; simpl.
  - rewrite fold_record_other by done. simpl.
    rewrite lookup_insert_eq. do 2 f_equal. lia.
  - rewrite IH by done. simpl. do 2 f_equal. lia.
Qed.

Lemma filter_source_last (source before after : list EnvVar) (s : EnvVar) :
  whitelisted source = before ++ s :: after ->
  (forall x, x ∈ after -> Name x ≠ Name s) ->
  Merge.filteredSourceMap (Merge.filter_source whitelist source) !! Name s
  = Some (Merge.mkItem (length before) (Value s)).
Proof.
  intros Hsplit Hafter. unfold Merge.filter_source.
  rewrite fold_filter_step_record, Hsplit. by rewrite fold_record_last.
Qed.

(** A list with an entry of some name splits at the last entry of that name. *)
Lemma split_at_last (l : list EnvVar) (k : string) :
  k ∈ Name <$> l ->
  exists before s after,
    l = before ++ s :: after /\ Name s = k /\ forall x, x ∈ after -> Name x ≠ k.
Proof.
  induction l as [|x l IH]; simpl; intros Hk.
  - by apply elem_of_nil in Hk.
  - destruct (decide (k ∈ Name <$> l)) as [Hin|Hout].
    + destruct (IH Hin) as (before & s & after & -> & Hs & Hafter).
      by exists (x :: before), s, after.
    + apply elem_of_cons in Hk as [Hk|Hk]; [|done].
      exists [], x, l. split_and!; [done..|].
      intros y Hy Heq. apply Hout. rewrite <- Heq. by apply list_elem_of_fmap_2.
Qed.

Lemma matched_lookup (source : list EnvVar) (e : EnvVar) :
  is_Some (Merge.filteredSourceMap (Merge.filter_source whitelist source) !! Name e)
  <-> matched whitelist source e.
Proof.
  unfold matched. by rewrite filter_source_map, name_of_whitelisted.
Qed.

Lemma unmatched_lookup (source : list EnvVar) (e : EnvVar) :
  ~ matched whitelist source e ->
  Merge.filteredSourceMap (Merge.filter_source whitelist source) !! Name e = None.
Proof.
  intros Hno. apply eq_None_not_Some. by rewrite matched_lookup.
Qed.

(** ** MergeTrustedEnvWithoutDuplicates: the walk, further *)

Lemma walk_unmatched m flag (result fsrc : list EnvVar) :
  (forall e, e ∈ result -> m !! Name e = None) ->
  Merge.walk m flag result fsrc = (result, Return fsrc).
Proof.
  induction result as [|e result IH]; intros Hno; simpl; [done|].
  rewrite (Hno e) by by left. rewrite IH; [done|].
  intros x Hx. apply Hno. by right.
Qed.

Lemma walk_app_unmatched m flag (before result fsrc : list EnvVar) :
  (forall e, e ∈ before -> m !! Name e = None) ->
  Merge.walk m flag (before ++ result) fsrc
  = (before ++ (Merge.walk m flag result fsrc).1, (Merge.walk m flag result fsrc).2).
Proof.
  induction before as [|e before IH]; intros Hno; simpl.
  - by destruct (Merge.walk m flag result fsrc).
  - rewrite (Hno e) by by left. rewrite IH; [done|].
    intros x Hx. apply Hno. by right.
Qed.

Lemma walk_length m flag (result fsrc rest : list EnvVar) :
  (Merge.walk m flag result fsrc).2 = Return rest ->
  length rest + length (filter (fun e => is_Some (m !! Name e)) result)
  = length fsrc.
Proof.
  revert fsrc. induction result as [|e result IH]; intros fsrc; simpl.
  - intros [= <-]. simpl. lia.
  - destruct (m !! Name e) as [v|] eqn:Hm.
    + rewrite filter_cons_True by (rewrite Hm; eauto).
      unfold Merge.remove_index.
      destruct (Nat.leb_spec (Merge.index v + 1) (length fsrc)) as [Hin|]; [|discriminate].
      specialize (IH (take (Merge.index v) fsrc ++ drop (Merge.index v + 1) fsrc)).
      destruct (Merge.walk m flag result _); simpl in *.
      intros H. apply IH in H.
      rewrite length_app, length_take, length_drop in H. lia.
    + rewrite filter_cons_False by (rewrite Hm; by intros [? ?]).
      specialize (IH fsrc). by destruct (Merge.walk m flag result fsrc).
Qed.

Lemma walk_stored m (result fsrc rest : list EnvVar) (i : nat) (e : EnvVar)
    (v : Merge.sourceMapItem) :
  (Merge.walk m true result fsrc).2 = Return rest ->
  result !! i = Some e -> m !! Name e = Some v ->
  (Merge.walk m true result fsrc).1 !! i = Some (set_Value (Merge.value v) e).
Proof.
  revert fsrc i. induction result as [|x result IH]; intros fsrc i; simpl; [done|].
  destruct (m !! Name x) as [w|] eqn:Hm.
  - destruct (Merge.remove_index (Merge.index w) fsrc) as [fsrc'|p]; [|discriminate].
    specialize (IH fsrc'). destruct (Merge.walk m true result fsrc'); simpl in *.
    intros Hr. destruct i as [|i]; simpl.
    + intros [= ->] Hv. congruence.
    + by apply IH.
  - specialize (IH fsrc). destruct (Merge.walk m true result fsrc); simpl in *.
    intros Hr. destruct i as [|i]; simpl.
    + intros [= ->] Hv. congruence.
    + by apply IH.
Qed.

Lemma walk_panic m flag (result fsrc : list EnvVar) (p : panic) :
  (Merge.walk m flag result fsrc).2 = Panic p -> p = SliceBoundsOutOfRange.
Proof.
  revert fsrc. induction result as [|e result IH]; intros fsrc; simpl; [done|].
  destruct (m !! Name e) as [v|].
  - unfold Merge.remove_index. destruct (_ <=? _).
    + specialize (IH (take (Merge.index v) fsrc ++ drop (Merge.index v + 1) fsrc)).
      by destruct (Merge.walk m flag result _).
    + simpl. by intros [= <-].
  - specialize (IH fsrc). by destruct (Merge.walk m flag result fsrc).
Qed.

Lemma whitelisted_sublist (source : list EnvVar) : whitelisted source `sublist_of` source.
Proof.
  induction source as [|e source IH]; simpl; [constructor|].
  destruct (acceptable (Name e)); by constructor.
Qed.

End MergeMore.

(** ** MergeTrustedEnvWithoutDuplicates: further properties *)

(** X1. Whatever the call does, what follows the original entries in the final
    [*output] is taken from [source] in the order [source] has it. *)
Theorem merge_appends_in_source_order (whitelist : list string)
    (source output : list EnvVar) (sourcePrecedence : bool) :
  drop (length output)
    (Merge.final_output
       (Merge.MergeTrustedEnvWithoutDuplicates whitelist source output sourcePrecedence))
  `sublist_of` source.
Proof.
  destruct (merge_split whitelist source output sourcePrecedence)
    as (kept & added & -> & Hkept & Hadded).
  rewrite drop_app_length' by (by eapply Forall2_length).
  etrans; [done | apply whitelisted_sublist].
Qed.

(** X2. When no entry of [*output] is matched, the call returns and appends
    every whitelisted entry of [source], in order, to the unchanged entries. *)
Theorem merge_no_match (whitelist : list string) (source output : list EnvVar)
    (sourcePrecedence : bool) :
  (forall e, e ∈ output -> ~ matched whitelist source e) ->
  Merge.MergeTrustedEnvWithoutDuplicates whitelist source output sourcePrecedence
  = Merge.Returned
      (output ++ List.filter (fun e => Merge.acceptable whitelist (Name e)) source).
Proof.
  intros Hno. unfold Merge.MergeTrustedEnvWithoutDuplicates.
  rewrite walk_unmatched.
  - by rewrite filter_source_list.
  - intros e He. by apply unmatched_lookup, Hno.
Qed.

Lemma merge_no_match_witness :
  Merge.MergeTrustedEnvWithoutDuplicates FOO_BAR
    [env "BAR" "2"; env "BAZ" "x"; env "BAR" "3"] [env "PATH" "/bin"] true
  = Merge.Returned [env "PATH" "/bin"; env "BAR" "2"; env "BAR" "3"].
Proof.
  apply (merge_no_match FOO_BAR [env "BAR" "2"; env "BAZ" "x"; env "BAR" "3"]
           [env "PATH" "/bin"] true).
  intros e He [Hwl _]. apply list_elem_of_In in He. apply list_elem_of_In in Hwl.
  destruct He as [<-|[]]. vm_compute in Hwl.
  destruct Hwl as [H|[H|[]]]; discriminate H.
Defined.

(** X3. A [source] none of whose names is whitelisted leaves [*output] as it
    is, whatever [*output] holds. *)
Theorem merge_untrusted_source (whitelist : list string) (source output : list EnvVar)
    (sourcePrecedence : bool) :
  (forall e, e ∈ source -> Name e ∉ whitelist) ->
  Merge.MergeTrustedEnvWithoutDuplicates whitelist source output sourcePrecedence
  = Merge.Returned output.
Proof.
  intros Hno.
  assert (List.filter (fun e => Merge.acceptable whitelist (Name e)) source = []) as Hnil.
  { apply elem_of_nil_inv. intros e He.
    apply elem_of_whitelisted in He as [He Hw]. by apply (Hno e). }
  unfold Merge.MergeTrustedEnvWithoutDuplicates.
  rewrite walk_unmatched.
  - by rewrite filter_source_list, Hnil, app_nil_r.
  - intros e _. apply unmatched_lookup. intros [Hw Hs].
    apply list_elem_of_fmap in Hs as (s & Heq & Hs).
    apply (Hno s Hs). by rewrite <- Heq.
Qed.

Lemma merge_untrusted_source_witness :
  Merge.MergeTrustedEnvWithoutDuplicates FOO_BAR
    [env "PATH" "/evil"; env "BAZ" "x"] [env "PATH" "/bin"; env "FOO" "0"] true
  = Merge.Returned [env "PATH" "/bin"; env "FOO" "0"].
Proof.
  apply (merge_untrusted_source FOO_BAR [env "PATH" "/evil"; env "BAZ" "x"]
           [env "PATH" "/bin"; env "FOO" "0"] true).
  intros e He Hwl. apply list_elem_of_In in He. apply list_elem_of_In in Hwl.
  destruct He as [<-|[<-|[]]]; vm_compute in Hwl;
    destruct Hwl as [H|[H|[]]]; discriminate H.
Defined.

(** X4. With source precedence, in a call that returns, a matched entry gets
    the value of the last entry of [source] that has its name. *)
Theorem merge_last_value_wins (whitelist : list string)
    (before after output final : list EnvVar) (s e : EnvVar) (i : nat) :
  Merge.MergeTrustedEnvWithoutDuplicates whitelist (before ++ s :: after) output true
  = Merge.Returned final ->
  output !! i = Some e ->
  Name s = Name e -> Name s ∈ whitelist ->
  (forall x, x ∈ after -> Name x ≠ Name s) ->
  final !! i = Some (set_Value (Value s) e).
Proof.
  intros Hret Hi Hname Hwl Hafter.
  assert (Merge.filteredSourceMap (Merge.filter_source whitelist (before ++ s :: after))
          !! Name e
          = Some (Merge.mkItem
                    (length (List.filter (fun e => Merge.acceptable whitelist (Name e)) before))
                    (Value s))) as Hm.
  { rewrite <- Hname.
    apply (filter_source_last whitelist _ _
             (List.filter (fun e => Merge.acceptable whitelist (Name e)) after)).
    - rewrite List.filter_app. simpl.
      by rewrite (proj2 (acceptable_elem_of whitelist (Name s)) Hwl).
    - intros x Hx. apply elem_of_whitelisted in Hx as [Hx _]. by apply Hafter. }
  unfold Merge.MergeTrustedEnvWithoutDuplicates in Hret.
  set (m := Merge.filteredSourceMap _) in *. set (fsrc := Merge.filteredSource _) in *.
  pose proof (walk_stored m output fsrc) as Hst.
  destruct (Merge.walk m true output fsrc) as [kept [rest|p]]; [|discriminate].
  injection Hret as <-. apply lookup_app_l_Some.
  by apply (Hst rest i e _ eq_refl Hi Hm).
Qed.

Lemma merge_last_value_wins_witness :
  Merge.MergeTrustedEnvWithoutDuplicates FOO_BAR
    ([env "FOO" "1"] ++ env "FOO" "2" :: [env "BAZ" "x"]) [env "FOO" "0"] true
  = Merge.Returned [env "FOO" "2"; env "FOO" "1"]
  /\ [env "FOO" "2"; env "FOO" "1"] !! 0 = Some (set_Value "2" (env "FOO" "0")).
Proof.
  split; [reflexivity|].
  apply (merge_last_value_wins FOO_BAR [env "FOO" "1"] [env "BAZ" "x"]
           [env "FOO" "0"] _ (env "FOO" "2") (env "FOO" "0") 0);
    [reflexivity | reflexivity | reflexivity | |].
  - apply list_elem_of_In. vm_compute. left. reflexivity.
  - intros x Hx. apply list_elem_of_In in Hx. destruct Hx as [<-|[]]. discriminate.
Defined.

(** The filtered list splits at the entry a name of the lookup stands for:
    the last entry of that name. *)
Lemma recorded_split (whitelist : list string) (source : list EnvVar)
    (k : string) (v : Merge.sourceMapItem) :
  Merge.filteredSourceMap (Merge.filter_source whitelist source) !! k = Some v ->
  exists before s after,
    Merge.filteredSource (Merge.filter_source whitelist source) = before ++ s :: after
    /\ Name s = k
    /\ (forall x, x ∈ after -> Name x ≠ k)
    /\ v = Merge.mkItem (length before) (Value s).
Proof.
  intros Hv. rewrite filter_source_list.
  assert (k ∈ Name <$> List.filter (fun e => Merge.acceptable whitelist (Name e)) source)
    as Hk by (apply filter_source_map; eauto).
  destruct (split_at_last _ _ Hk) as (before & s & after & Hsplit & <- & Hafter).
  rewrite (filter_source_last whitelist source before after s Hsplit Hafter) in Hv.
  injection Hv as <-. by exists before, s, after.
Qed.

(** X5. What the first loop records: for each name of the lookup, the recorded
    position holds, in the filtered list, an entry of that name and of the
    recorded value, and no later entry has that name. *)
Theorem recorded_position (whitelist : list string) (source : list EnvVar)
    (k : string) (v : Merge.sourceMapItem) :
  Merge.filteredSourceMap (Merge.filter_source whitelist source) !! k = Some v ->
  exists e,
    Merge.filteredSource (Merge.filter_source whitelist source) !! Merge.index v = Some e
    /\ Name e = k
    /\ Value e = Merge.value v
    /\ forall j x,
         Merge.index v < j ->
         Merge.filteredSource (Merge.filter_source whitelist source) !! j = Some x ->
         Name x ≠ k.
Proof.
  intros Hv. destruct (recorded_split whitelist source k v Hv)
    as (before & s & after & Hsplit & <- & Hafter & ->).
  simpl. rewrite Hsplit. exists s. split_and!; [|done..|].
  - by rewrite list_lookup_middle.
  - intros j x Hj Hx. apply Hafter.
    rewrite lookup_app_r in Hx by lia.
    destruct (j - length before) as [|j'] eqn:Hd; [lia|]. simpl in Hx.
    by eapply list_elem_of_lookup_2.
Qed.

Lemma recorded_position_witness :
  exists e,
    Merge.filteredSource
      (Merge.filter_source FOO_BAR [env "FOO" "1"; env "BAZ" "x"; env "FOO" "2"])
    !! 1 = Some e
    /\ Name e = "FOO" /\ Value e = "2".
Proof.
  destruct (recorded_position FOO_BAR [env "FOO" "1"; env "BAZ" "x"; env "FOO" "2"]
              "FOO" (Merge.mkItem 1 "2") eq_refl) as (e & He & Hn & Hv & _).
  exists e. split; [exact He|]. split; [exact Hn | exact Hv].
Defined.

Lemma walk_panic_matched m flag (result fsrc : list EnvVar) (p : panic) :
  (Merge.walk m flag result fsrc).2 = Panic p ->
  1 <= length (filter (fun e => is_Some (m !! Name e)) result).
Proof.
  revert fsrc. induction result as [|e result IH]; intros fsrc; simpl; [done|].
  destruct (m !! Name e) as [v|] eqn:Hm.
  - intros _. rewrite filter_cons_True by (rewrite Hm; eauto). simpl. lia.
  - rewrite filter_cons_False by (rewrite Hm; by intros [? ?]).
    specialize (IH fsrc). by destruct (Merge.walk m flag result fsrc).
Qed.

(** Starting from recorded positions that are all in range, the first removal
    is in range: a panic needs a second matched entry. *)
Lemma walk_panic_second m flag (result fsrc : list EnvVar) (p : panic) :
  (forall k v, m !! k = Some v -> Merge.index v < length fsrc) ->
  (Merge.walk m flag result fsrc).2 = Panic p ->
  2 <= length (filter (fun e => is_Some (m !! Name e)) result).
Proof.
  intros Hrange. induction result as [|e result IH]; simpl; [done|].
  destruct (m !! Name e) as [v|] eqn:Hm.
  - rewrite filter_cons_True by (rewrite Hm; eauto).
    unfold Merge.remove_index.
    destruct (Nat.leb_spec (Merge.index v + 1) (length fsrc)) as [_|Hout].
    + set (fsrc' := take (Merge.index v) fsrc ++ drop (Merge.index v + 1) fsrc).
      pose proof (walk_panic_matched m flag result fsrc' p) as H1.
      destruct (Merge.walk m flag result fsrc'); simpl in *.
      intros H. apply H1 in H. lia.
    + apply Hrange in Hm. lia.
  - rewrite filter_cons_False by (rewrite Hm; by intros [? ?]).
    by destruct (Merge.walk m flag result fsrc).
Qed.

Lemma filter_matched (whitelist : list string) (source output : list EnvVar) :
  filter (fun e =>
            is_Some (Merge.filteredSourceMap (Merge.filter_source whitelist source)
                     !! Name e)) output
  = filter (matched whitelist source) output.
Proof. apply list_filter_iff. intros e. apply matched_lookup. Qed.

(** X6. When exactly one entry of [*output] is matched, the call returns:
    that entry takes, under source precedence, the value of the last entry of
    [source] of its name, and the whitelisted entries of [source] are
    appended without that last entry. *)
Theorem merge_single_match (whitelist : list string) (source : list EnvVar)
    (before after kept_before kept_after : list EnvVar) (s e : EnvVar)
    (sourcePrecedence : bool) :
  List.filter (fun x => Merge.acceptable whitelist (Name x)) source
  = kept_before ++ s :: kept_after ->
  Name s = Name e ->
  (forall x, x ∈ kept_after -> Name x ≠ Name e) ->
  (forall x, x ∈ before ++ after -> ~ matched whitelist source x) ->
  Merge.MergeTrustedEnvWithoutDuplicates whitelist source (before ++ e :: after)
    sourcePrecedence
  = Merge.Returned
      (before ++ (if sourcePrecedence then set_Value (Value s) e else e) :: after
       ++ kept_before ++ kept_after).
Proof.
  intros Hsplit Hname Hlast Hno.
  assert (Merge.filteredSourceMap (Merge.filter_source whitelist source) !! Name e
          = Some (Merge.mkItem (length kept_before) (Value s))) as Hm.
  { rewrite <- Hname. apply (filter_source_last whitelist source _ kept_after); [done|].
    by rewrite Hname. }
  unfold Merge.MergeTrustedEnvWithoutDuplicates.
  rewrite filter_source_list, Hsplit.
  rewrite walk_app_unmatched
    by (intros x Hx; apply unmatched_lookup, Hno, elem_of_app; by left).
  simpl. rewrite Hm. simpl. unfold Merge.remove_index.
  destruct (Nat.leb_spec (length kept_before + 1) (length (kept_before ++ s :: kept_after)))
    as [_|Hout]; [|rewrite length_app in Hout; simpl in Hout; lia].
  rewrite take_app_length.
  replace (length kept_before + 1) with (length (kept_before ++ [s]))
    by (rewrite length_app; simpl; lia).
  rewrite (cons_middle s kept_before kept_after), app_assoc, drop_app_length.
  rewrite walk_unmatched
    by (intros x Hx; apply unmatched_lookup, Hno, elem_of_app; by right).
  simpl. by rewrite <- app_assoc.
Qed.

Lemma merge_single_match_witness :
  Merge.MergeTrustedEnvWithoutDuplicates FOO_BAR
    [env "BAR" "1"; env "FOO" "2"; env "BAZ" "x"]
    ([env "PATH" "/bin"] ++ env "FOO" "0" :: []) true
  = Merge.Returned
      ([env "PATH" "/bin"] ++ set_Value "2" (env "FOO" "0") :: []
       ++ [env "BAR" "1"] ++ []).
Proof.
  apply (merge_single_match FOO_BAR [env "BAR" "1"; env "FOO" "2"; env "BAZ" "x"]
           [env "PATH" "/bin"] [] [env "BAR" "1"] [] (env "FOO" "2") (env "FOO" "0") true).
  - reflexivity.
  - reflexivity.
  - intros x Hx. apply list_elem_of_In in Hx. destruct Hx.
  - intros x Hx [Hwl _]. apply list_elem_of_In in Hx. apply list_elem_of_In in Hwl.
    destruct Hx as [<-|[]]. vm_compute in Hwl.
    destruct Hwl as [H|[H|[]]]; discriminate H.
Defined.

(** X7. A call that returns appends one whitelisted entry of [source] less
    for every matched entry of [*output]. *)
Theorem merge_length (whitelist : list string) (source output final : list EnvVar)
    (sourcePrecedence : bool) :
  Merge.MergeTrustedEnvWithoutDuplicates whitelist source output sourcePrecedence
  = Merge.Returned final ->
  length final + length (filter (matched whitelist source) output)
  = length output
    + length (List.filter (fun e => Merge.acceptable whitelist (Name e)) source).
Proof.
  unfold Merge.MergeTrustedEnvWithoutDuplicates.
  rewrite <- filter_matched, <- filter_source_list.
  set (m := Merge.filteredSourceMap _). set (fsrc := Merge.filteredSource _).
  pose proof (walk_length m sourcePrecedence output fsrc) as Hlen.
  pose proof (Forall2_length _ _ _ (walk_entries m sourcePrecedence output fsrc)) as Hkept.
  destruct (Merge.walk m sourcePrecedence output fsrc) as [kept [rest|p]];
    [|discriminate].
  intros [= <-]. simpl in *. specialize (Hlen rest eq_refl).
  rewrite length_app. lia.
Qed.

Lemma merge_length_witness :
  length [env "FOO" "1"; env "BAR" "2"]
  + length (filter (matched FOO_BAR [env "FOO" "1"; env "BAZ" "x"; env "BAR" "2"])
              [env "FOO" "0"])
  = length [env "FOO" "0"]
    + length (List.filter (fun e => Merge.acceptable FOO_BAR (Name e))
                [env "FOO" "1"; env "BAZ" "x"; env "BAR" "2"]).
Proof.
  apply (merge_length FOO_BAR [env "FOO" "1"; env "BAZ" "x"; env "BAR" "2"]
           [env "FOO" "0"] [env "FOO" "1"; env "BAR" "2"] true).
  reflexivity.
Defined.

(** On a slice, a call can only panic on a slice bound, and only when at
    least two entries are matched; the slice then has the entries it had,
    under the same names. *)
Lemma merge_panic (whitelist : list string) (source output final : list EnvVar)
    (sourcePrecedence : bool) (p : panic) :
  Merge.MergeTrustedEnvWithoutDuplicates whitelist source output sourcePrecedence
  = Merge.Panicked p final ->
  p = SliceBoundsOutOfRange
  /\ Name <$> final = Name <$> output
  /\ 2 <= length (filter (matched whitelist source) output).
Proof.
  unfold Merge.MergeTrustedEnvWithoutDuplicates.
  rewrite <- filter_matched.
  pose proof (recorded_split whitelist source) as Hrec.
  set (m := Merge.filteredSourceMap _) in *. set (fsrc := Merge.filteredSource _) in *.
  pose proof (walk_panic m sourcePrecedence output fsrc) as Hp.
  pose proof (walk_panic_second m sourcePrecedence output fsrc) as Htwo.
  pose proof (overwritten_names _ _ _ _ (walk_entries m sourcePrecedence output fsrc))
    as Hnames.
  destruct (Merge.walk m sourcePrecedence output fsrc) as [kept [rest|q]];
    [discriminate|].
  intros [= <- <-]. simpl in *. split_and!; [by eapply Hp | done |].
  apply (Htwo q); [|done].
  intros k v Hv. destruct (Hrec k v Hv) as (before & s & after & -> & _ & _ & ->).
  rewrite length_app. simpl. lia.
Qed.

(** X8. A call panics on a nil pointer exactly when [output] is nil.  With
    [output] pointing at a slice it can only panic on a slice bound, and only
    when at least two entries of [*output] are matched; [*output] then has the
    entries it had, under the same names. *)
Theorem merge_call_panics (whitelist : list string) (source : list EnvVar)
    (output : option (list EnvVar)) (sourcePrecedence : bool) :
  match MergeTrustedEnvWithoutDuplicates_ptr whitelist source output sourcePrecedence with
  | Panic p => p = NilDereference /\ output = None
  | Return (Merge.Panicked p final) =>
      p = SliceBoundsOutOfRange
      /\ exists original,
           output = Some original
           /\ Name <$> final = Name <$> original
           /\ 2 <= length (filter (matched whitelist source) original)
  | Return (Merge.Returned final) => output <> None
  end.
Proof.
  destruct output as [original|]; simpl; [|done].
  destruct (Merge.MergeTrustedEnvWithoutDuplicates whitelist source original
              sourcePrecedence) as [final|p final] eqn:Hcall; [done|].
  destruct (merge_panic _ _ _ _ _ _ Hcall) as (-> & Hnames & Htwo).
  split; [done|]. by exists original.
Qed.

(** X9, at the names of the example of the specification. *)
Lemma merge_two_matched_names_witness :
  Merge.MergeTrustedEnvWithoutDuplicates FOO_BAR
    [env "FOO" "1"; env "BAR" "2"] [env "FOO" "0"; env "BAR" "0"] false
  = Merge.Panicked SliceBoundsOutOfRange [env "FOO" "0"; env "BAR" "0"].
Proof.
  apply (merge_two_matched_names FOO_BAR "FOO" "BAR" "1" "2" "0" "0" false).
  - discriminate.
  - apply list_elem_of_In. vm_compute. left. reflexivity.
  - apply list_elem_of_In. vm_compute. right. left. reflexivity.
Defined.

(** ** IsBuildComplete, BuildRunPolicy, IsPaused *)

(** X10. A build counts as not complete in exactly three phases; every other
    phase, known or not, counts as complete. *)
Theorem IsBuildComplete_active_phases
    (BuildPhaseRunning BuildPhasePending BuildPhaseNew : BuildPhase) (build : Build) :
  IsBuildComplete BuildPhaseRunning BuildPhasePending BuildPhaseNew (Some build)
  = Return false
  <-> Phase build = BuildPhaseRunning
      \/ Phase build = BuildPhasePending
      \/ Phase build = BuildPhaseNew.
Proof.
  unfold IsBuildComplete. simpl.
  destruct (String.eqb_spec (Phase build) BuildPhaseRunning),
           (String.eqb_spec (Phase build) BuildPhasePending),
           (String.eqb_spec (Phase build) BuildPhaseNew); simpl;
    split; try tauto; try discriminate; intros [|[|]]; congruence.
Qed.

Lemma IsBuildComplete_active_phases_witness :
  IsBuildComplete "Running" "Pending" "New"
    (Some {| BuildMeta := ObjectMeta.mk "b" "ns" None None; Phase := "Pending" |})
  = Return false.
Proof.
  apply (proj2 (IsBuildComplete_active_phases "Running" "Pending" "New"
                  {| BuildMeta := ObjectMeta.mk "b" "ns" None None; Phase := "Pending" |})).
  right. left. reflexivity.
Defined.

(** X11. The policy is Parallel or SerialLatestOnly exactly when the label
    spells it, and Serial otherwise; the diagnostic is written exactly when
    the label is missing or spells none of the three policies, so not for a
    label that spells Serial. *)
Theorem BuildRunPolicy_of_label (BuildRunPolicyLabel : string) (build : Build) :
  let label := lookup_in (ObjectMeta.Labels (BuildMeta build)) BuildRunPolicyLabel in
  exists policy diagnostic,
    BuildRunPolicy BuildRunPolicyLabel (Some build) = Return (policy, diagnostic)
    /\ (policy = BuildRunPolicyParallel <-> label = Some "Parallel")
    /\ (policy = BuildRunPolicySerialLatestOnly <-> label = Some "SerialLatestOnly")
    /\ (diagnostic = None
        <-> label = Some "Parallel" \/ label = Some "Serial"
            \/ label = Some "SerialLatestOnly").
Proof.
  destruct build as [[name ns labels annotations] phase]. simpl.
  unfold BuildRunPolicy, map_get, lookup_in. simpl.
  destruct labels as [l|]; simpl.
  2:{ eexists _, _. split; [reflexivity|].
      split_and!; split; try discriminate; intros [|[|]]; discriminate. }
  destruct (l !! BuildRunPolicyLabel) as [value|]; simpl.
  2:{ eexists _, _. split; [reflexivity|].
      split_and!; split; try discriminate; intros [|[|]]; discriminate. }
  destruct (String.eqb_spec value "Parallel") as [->|H1].
  { eexists _, _. split; [reflexivity|].
    split_and!; split; try discriminate; auto. }
  destruct (String.eqb_spec value "Serial") as [->|H2].
  { eexists _, _. split; [reflexivity|].
    split_and!; split; try discriminate; auto. }
  destruct (String.eqb_spec value "SerialLatestOnly") as [->|H3].
  { eexists _, _. split; [reflexivity|].
    split_and!; split; try discriminate; auto. }
  eexists _, _. split; [reflexivity|].
  split_and!; split; try discriminate; try (intros [= ?]; done).
  intros [[= ?]|[[= ?]|[= ?]]]; done.
Qed.

Lemma BuildRunPolicy_of_label_witness :
  exists policy diagnostic,
    BuildRunPolicy "policy"
      (Some {| BuildMeta := ObjectMeta.mk "b" "ns" (Some {[ "policy" := "Serial" ]}) None;
               Phase := "New" |})
    = Return (policy, diagnostic)
    /\ diagnostic = None.
Proof.
  destruct (BuildRunPolicy_of_label "policy"
              {| BuildMeta := ObjectMeta.mk "b" "ns" (Some {[ "policy" := "Serial" ]}) None;
                 Phase := "New" |})
    as (policy & diagnostic & Hrun & _ & _ & Hquiet).
  exists policy, diagnostic. split; [exact Hrun|].
  apply Hquiet. right. left. reflexivity.
Defined.

Lemma lower_byte_letter (c lower upper : ascii) :
  (lower, upper) ∈ [("t", "T"); ("r", "R"); ("u", "U"); ("e", "E")]%char ->
  lower_byte c = lower <-> c = lower \/ c = upper.
Proof.
  intros Hin. apply list_elem_of_In in Hin.
  destruct Hin as [[= <- <-]|[[= <- <-]|[[= <- <-]|[[= <- <-]|[]]]]];
    destruct c as [[] [] [] [] [] [] [] []]; vm_compute;
    (split; [intros H; first [discriminate H | (left; reflexivity) | (right; reflexivity)]
            | intros [H|H]; first [discriminate H | reflexivity]]).
Qed.

Lemma ToLower_true (s : string) : ToLower s = "true" <-> spells_true s.
Proof.
  unfold spells_true. split.
  - destruct s as [|c1 [|c2 [|c3 [|c4 [|c5 s]]]]]; simpl; try discriminate.
    intros [= H1 H2 H3 H4]. exists c1, c2, c3, c4. split; [done|].
    rewrite <- (lower_byte_letter c1 "t" "T"), <- (lower_byte_letter c2 "r" "R"),
      <- (lower_byte_letter c3 "u" "U"), <- (lower_byte_letter c4 "e" "E");
      [done | apply list_elem_of_In; simpl; tauto..].
  - intros (c1 & c2 & c3 & c4 & -> & H1 & H2 & H3 & H4). simpl.
    apply (lower_byte_letter c1 "t" "T") in H1; [|apply list_elem_of_In; simpl; tauto].
    apply (lower_byte_letter c2 "r" "R") in H2; [|apply list_elem_of_In; simpl; tauto].
    apply (lower_byte_letter c3 "u" "U") in H3; [|apply list_elem_of_In; simpl; tauto].
    apply (lower_byte_letter c4 "e" "E") in H4; [|apply list_elem_of_In; simpl; tauto].
    by rewrite H1, H2, H3, H4.
Qed.

(** X12. A build configuration is paused exactly when the annotation exists
    and its value spells ["true"] in any mix of upper and lower case, with
    nothing before or after it. *)
Theorem IsPaused_spelling (BuildConfigPausedAnnotation : string) (bc : BuildConfig) :
  IsPaused BuildConfigPausedAnnotation (Some bc) = Return true
  <-> exists value,
        lookup_in (ObjectMeta.Annotations (BuildConfigMeta bc))
          BuildConfigPausedAnnotation = Some value
        /\ spells_true value.
Proof.
  destruct bc as [[name ns labels annotations]]. simpl.
  unfold IsPaused, map_index, map_get, lookup_in. simpl.
  assert (forall s, Return (String.eqb (ToLower s) "true") = Return true
                    <-> spells_true s) as Hs.
  { intros s. rewrite <- ToLower_true. split.
    - intros [= H]. by apply String.eqb_eq.
    - intros H. f_equal. by apply String.eqb_eq. }
  destruct annotations as [a|]; simpl.
  - destruct (a !! BuildConfigPausedAnnotation) as [value|]; simpl.
    + rewrite Hs. split; [eauto | by intros (? & [= <-] & ?)].
    + split; [discriminate | by intros (? & [=] & _)].
  - split; [discriminate | by intros (? & [=] & _)].
Qed.

Lemma IsPaused_spelling_witness :
  IsPaused "paused"
    (Some {| BuildConfigMeta :=
               ObjectMeta.mk "bc" "ns" None (Some {[ "paused" := "TruE" ]}) |})
  = Return true.
Proof.
  apply (proj2 (IsPaused_spelling "paused"
                  {| BuildConfigMeta :=
                       ObjectMeta.mk "bc" "ns" None (Some {[ "paused" := "TruE" ]}) |})).
  exists "TruE". split; [reflexivity|].
  exists "T"%char, "r"%char, "u"%char, "E"%char. tauto.
Defined.

(** ** The verb [%d] and strconv.ParseInt *)

Section Decimal.

Local Open Scope Z_scope.

Lemma digit_byte_value (u : Z) :
  0 <= u <= 9 ->
  is_digit (fmt.digit_byte u) = true
  /\ Z.of_N (N_of_ascii (fmt.digit_byte u)) - 48 = u.
Proof.
  intros Hu. unfold is_digit, fmt.digit_byte.
  rewrite N_ascii_embedding by lia.
  split; [|lia]. apply andb_true_iff. split; apply N.leb_le; lia.
Qed.

(** Reading back what [write_digits] wrote gives the number written. *)
Lemma write_digits_decimal (room : nat) (u : Z) (buf : string) :
  0 <= u < 10 ^ Z.of_nat room ->
  decimal (fmt.write_digits room u buf) 0 = decimal buf u.
Proof.
  revert u buf. induction room as [|room IH]; intros u buf Hu.
  - simpl in *. by replace u with 0 by lia.
  - rewrite Nat2Z.inj_succ, Z.pow_succ_r in Hu by lia. simpl.
    destruct (Z.leb_spec 10 u) as [Hbig|Hsmall].
    + rewrite IH by (split; [apply Z.div_pos; lia | apply Z.div_lt_upper_bound; lia]).
      simpl. destruct (digit_byte_value (u - u / 10 * 10)) as [-> ->].
      { pose proof (Z.mod_pos_bound u 10). rewrite Z.mod_eq in *; lia. }
      f_equal. lia.
    + simpl. destruct (digit_byte_value u) as [-> ->]; [lia|]. f_equal.
Qed.

Lemma write_digits_nonempty (room : nat) (u : Z) (buf : string) :
  fmt.write_digits (S room) u buf ≠ EmptyString.
Proof.
  revert u buf. induction room as [|room IH]; intros u buf.
  - simpl. by destruct (10 <=? u).
  - change (fmt.write_digits (S (S room)) u buf)
      with (if 10 <=? u
            then fmt.write_digits (S room) (u / 10)
                   (String (fmt.digit_byte (u - u / 10 * 10)) buf)
            else String (fmt.digit_byte u) buf).
    destruct (10 <=? u); [apply IH | done].
Qed.

Lemma write_digits_unsigned_literal (u : Z) :
  0 <= u < 10 ^ 20 ->
  exists c rest,
    fmt.write_digits 20 u "" = String c rest
    /\ is_digit c = true
    /\ unsigned_literal (String c rest) = Some u.
Proof.
  intros Hu. pose proof (write_digits_decimal 20 u "" Hu) as Hdec.
  pose proof (write_digits_nonempty 19 u "") as Hne.
  destruct (fmt.write_digits 20 u "") as [|c rest]; [done|].
  exists c, rest. split; [done|]. split; [|exact Hdec].
  simpl in Hdec. by destruct (is_digit c).
Qed.

(** [ParseInt] reads back every 64-bit integer from what [%d] writes. *)
Lemma fmt_d_int64_literal (v : Z) :
  - 2 ^ 63 <= v < 2 ^ 63 -> int64_literal (fmt.fmt_d v) = Some v.
Proof.
  intros Hv. unfold int64_literal, fmt.fmt_d.
  assert (((- 2 ^ 63 <=? v) && (v <? 2 ^ 63)) = true) as Hrange.
  { apply andb_true_iff. split; [apply Z.leb_le | apply Z.ltb_lt]; lia. }
  destruct (Z.ltb_spec v 0) as [Hneg|Hpos].
  - destruct (write_digits_unsigned_literal (- v)) as (c & rest & -> & _ & Hlit).
    { change (2 ^ 63) with 9223372036854775808 in Hv.
      change (10 ^ 20) with 100000000000000000000. lia. }
    unfold integer_literal. change (Ascii.eqb "-" "+") with false.
    change (Ascii.eqb "-" "-") with true. cbv iota. rewrite Hlit. simpl.
    rewrite Z.opp_involutive. by rewrite Hrange.
  - destruct (write_digits_unsigned_literal v) as (c & rest & -> & Hc & Hlit).
    { change (2 ^ 63) with 9223372036854775808 in Hv.
      change (10 ^ 20) with 100000000000000000000. lia. }
    unfold integer_literal.
    destruct (Ascii.eqb_spec c "+") as [->|_]; [discriminate Hc|].
    destruct (Ascii.eqb_spec c "-") as [->|_]; [discriminate Hc|].
    rewrite Hlit. by rewrite Hrange.
Qed.

Lemma fmt_d_inj (v w : Z) :
  - 2 ^ 63 <= v < 2 ^ 63 -> - 2 ^ 63 <= w < 2 ^ 63 ->
  fmt.fmt_d v = fmt.fmt_d w -> v = w.
Proof.
  intros Hv Hw Heq. apply fmt_d_int64_literal in Hv, Hw. congruence.
Qed.

Lemma int64_literal_range (s : string) (v : Z) :
  int64_literal s = Some v -> - 2 ^ 63 <= v < 2 ^ 63.
Proof.
  unfold int64_literal. destruct (integer_literal s) as [w|]; [|discriminate].
  destruct (Z.leb_spec (- 2 ^ 63) w), (Z.ltb_spec w (2 ^ 63)); simpl;
    try discriminate.
  intros [= <-]. lia.
Qed.

(** A string of digits has no ["-"] in it. *)
Lemma decimal_no_dash (s rest : string) (acc : Z) :
  decimal (s +:+ String "-" rest) acc = None.
Proof.
  revert acc. induction s as [|c s IH]; intros acc; simpl; [done|].
  by destruct (is_digit c).
Qed.

Lemma append_inv_head (s a b : string) : s +:+ a = s +:+ b -> a = b.
Proof. induction s as [|c s IH]; simpl; [done|]. intros [= H]. by apply IH. Qed.

(** Two names followed by ["-"] and digits are equal only part by part. *)
Lemma dash_digits_inj (n1 n2 d1 d2 : string) (v1 v2 : Z) :
  decimal d1 0 = Some v1 -> decimal d2 0 = Some v2 ->
  n1 +:+ String "-" d1 = n2 +:+ String "-" d2 -> n1 = n2 /\ d1 = d2.
Proof.
  intros H1 H2. revert n2. induction n1 as [|c n1 IH]; intros [|c' n2]; simpl.
  - by intros [= ->].
  - intros [= <- ->]. by rewrite decimal_no_dash in H1.
  - intros [= -> <-]. by rewrite decimal_no_dash in H2.
  - intros [= <- H]. destruct (IH _ H) as [-> ->]. done.
Qed.

End Decimal.

(** ** BuildNameForConfigVersion *)

(** X13. For versions that are not negative the name of a build tells the
    name of its configuration and its version apart: two builds get the
    same name only from the same configuration name and the same version. *)
Theorem BuildNameForConfigVersion_inj (name1 name2 : string) (version1 version2 : Z) :
  (0 <= version1 < 2 ^ 63)%Z -> (0 <= version2 < 2 ^ 63)%Z ->
  BuildNameForConfigVersion name1 version1 = BuildNameForConfigVersion name2 version2 ->
  name1 = name2 /\ version1 = version2.
Proof.
  intros H1 H2. unfold BuildNameForConfigVersion, fmt.fmt_d.
  destruct (Z.ltb_spec version1 0) as [|_]; [lia|].
  destruct (Z.ltb_spec version2 0) as [|_]; [lia|].
  change (2 ^ 63)%Z with 9223372036854775808%Z in *.
  pose proof (write_digits_decimal 20 version1 "") as D1.
  pose proof (write_digits_decimal 20 version2 "") as D2.
  change (10 ^ Z.of_nat 20)%Z with 100000000000000000000%Z in *.
  specialize (D1 ltac:(lia)). specialize (D2 ltac:(lia)). simpl in D1, D2.
  change ("-" +:+ ?d) with (String "-" d). intros Heq.
  destruct (dash_digits_inj _ _ _ _ _ _ D1 D2 Heq) as [-> Hd]. split; [done|].
  rewrite Hd in D1. congruence.
Qed.

Lemma BuildNameForConfigVersion_inj_witness :
  "my-build" = "my-build" /\ 3%Z = 3%Z.
Proof.
  apply (BuildNameForConfigVersion_inj "my-build" "my-build" 3 3);
    [split; [discriminate | reflexivity] .. | reflexivity].
Defined.

(** X14. Under one configuration name, builds of different versions have
    different names, negative versions included. *)
Theorem BuildNameForConfigVersion_versions (name : string) (version1 version2 : Z) :
  (- 2 ^ 63 <= version1 < 2 ^ 63)%Z -> (- 2 ^ 63 <= version2 < 2 ^ 63)%Z ->
  BuildNameForConfigVersion name version1 = BuildNameForConfigVersion name version2 ->
  version1 = version2.
Proof.
  intros H1 H2 Heq. unfold BuildNameForConfigVersion in Heq.
  apply append_inv_head in Heq. apply append_inv_head in Heq.
  by apply fmt_d_inj.
Qed.

Lemma BuildNameForConfigVersion_versions_witness : (-7)%Z = (-7)%Z.
Proof.
  apply (BuildNameForConfigVersion_versions "x" (-7) (-7));
    [split; [discriminate | reflexivity] .. | reflexivity].
Defined.

(** With a negative version the name no longer tells the two apart. *)
Remark BuildNameForConfigVersion_negative :
  BuildNameForConfigVersion "a" (-1) = "a--1"
  /\ BuildNameForConfigVersion "a-" 1 = "a--1".
Proof. split; reflexivity. Qed.

(** The two names worked out in the specification. *)
Remark BuildNameForConfigVersion_examples :
  BuildNameForConfigVersion "my-build" 3 = "my-build-3"
  /\ BuildNameForConfigVersion "x" 0 = "x-0".
Proof. split; reflexivity. Qed.

(** ** BuildNumber and VersionForBuild, further *)

(** X15. An annotation that holds a 64-bit integer the way [%d] writes it is
    read back as that integer by [BuildNumber], with no error, and by
    [VersionForBuild] where [int] has 64 bits. *)
Theorem BuildNumber_reads_fmt_d (BuildNumberAnnotation : string) (build : Build)
    (number : Z) :
  (- 2 ^ 63 <= number < 2 ^ 63)%Z ->
  lookup_in (ObjectMeta.Annotations (BuildMeta build)) BuildNumberAnnotation
  = Some (fmt.fmt_d number) ->
  BuildNumber BuildNumberAnnotation (Some build) = Return (number, None)
  /\ VersionForBuild BuildNumberAnnotation 64 (Some build) = number.
Proof.
  intros Hrange. destruct build as [[name ns labels annotations] phase]. simpl.
  unfold BuildNumber, VersionForBuild, map_index, map_get, lookup_in, strconv.Atoi,
    ParseInt64.
  pose proof (ParseInt_int64_literal (fmt.fmt_d number)) as Hparse.
  rewrite (fmt_d_int64_literal _ Hrange) in Hparse.
  destruct annotations as [a|]; simpl; [|discriminate].
  intros ->. simpl. by rewrite Hparse.
Qed.

Lemma BuildNumber_reads_fmt_d_witness :
  BuildNumber "number"
    (Some {| BuildMeta :=
               ObjectMeta.mk "b" "ns" None (Some {[ "number" := fmt.fmt_d (-42) ]});
             Phase := "New" |})
  = Return ((-42)%Z, None).
Proof.
  apply (BuildNumber_reads_fmt_d "number"
           {| BuildMeta :=
                ObjectMeta.mk "b" "ns" None (Some {[ "number" := fmt.fmt_d (-42) ]});
              Phase := "New" |} (-42)).
  - split; [discriminate | reflexivity].
  - reflexivity.
Defined.

(** X16. A number that [BuildNumber] gives without an error is a 64-bit
    integer, and so is every answer of [VersionForBuild]. *)
Theorem BuildNumber_range (BuildNumberAnnotation : string) (build : option Build) :
  (forall number,
     BuildNumber BuildNumberAnnotation build = Return (number, None) ->
     - 2 ^ 63 <= number < 2 ^ 63)%Z
  /\ (- 2 ^ 63 <= VersionForBuild BuildNumberAnnotation 64 build < 2 ^ 63)%Z.
Proof.
  assert (forall s n, strconv.ParseInt s 64 = (n, None) -> - 2 ^ 63 <= n < 2 ^ 63)%Z
    as Hparse.
  { intros s n Hs. pose proof (ParseInt_int64_literal s) as H.
    destruct (int64_literal s) as [v|] eqn:Hv.
    - apply int64_literal_range in Hv. congruence.
    - destruct H as (? & ? & H). congruence. }
  destruct build as [[[name ns labels annotations] phase]|]; simpl.
  2:{ split; [discriminate | split; [discriminate | reflexivity]]. }
  unfold BuildNumber, VersionForBuild, map_index, map_get, strconv.Atoi, ParseInt64.
  simpl. split.
  - intros number.
    destruct annotations as [a|]; simpl; [|discriminate].
    destruct (a !! BuildNumberAnnotation) as [s|]; simpl; [|discriminate].
    destruct (strconv.ParseInt s 64) as [n [e|]] eqn:Hs; simpl; [discriminate|].
    intros [= <-]. by eapply Hparse.
  - set (s := (match annotations with Some g => _ | None => _ end).1).
    destruct (strconv.ParseInt s 64) as [n [e|]] eqn:Hs.
    + split; [discriminate | reflexivity].
    + by eapply Hparse.
Qed.

Lemma BuildNumber_range_witness :
  (- 2 ^ 63 <= 17 < 2 ^ 63)%Z.
Proof.
  apply (proj1 (BuildNumber_range "number"
                  (Some {| BuildMeta :=
                             ObjectMeta.mk "b" "ns" None (Some {[ "number" := "17" ]});
                           Phase := "New" |})) 17%Z).
  reflexivity.
Defined.

(** ** The selectors and ConfigNameForBuild *)

(** X17. A build that carries the label pair of [BuildConfigSelector name]
    and no owning-config annotation resolves to the label value made from
    [name]; one that carries the pair of [BuildConfigSelectorDeprecated name],
    no label of the current scheme and no annotation resolves to [name]. *)
Theorem selected_builds_resolve
    (BuildConfigAnnotation BuildConfigLabel BuildConfigLabelDeprecated : string)
    (LabelValue : string -> string) (name : string) (build : Build) :
  let annotation :=
    lookup_in (ObjectMeta.Annotations (BuildMeta build)) BuildConfigAnnotation in
  let label := lookup_in (ObjectMeta.Labels (BuildMeta build)) in
  let current := BuildConfigSelector BuildConfigLabel LabelValue name in
  let deprecated := BuildConfigSelectorDeprecated BuildConfigLabelDeprecated name in
  let resolved :=
    ConfigNameForBuild BuildConfigAnnotation BuildConfigLabel
      BuildConfigLabelDeprecated (Some build) in
  (annotation = None ->
   label (selector_key current) = Some (selector_value current) ->
   resolved = LabelValue name)
  /\ (annotation = None ->
      label BuildConfigLabel = None ->
      label (selector_key deprecated) = Some (selector_value deprecated) ->
      resolved = name).
Proof.
  destruct build as [[bname ns labels annotations] phase]. simpl.
  unfold ConfigNameForBuild, map_index, map_get, lookup_in. simpl.
  assert ((bool_decide (annotations ≠ None)
           && (match annotations with
               | Some g =>
                   match g !! BuildConfigAnnotation with
                   | Some v => (v, true)
                   | None => ("", false)
                   end
               | None => ("", false)
               end).2 = false)
          <-> annotations ≫= (.!! BuildConfigAnnotation) = None) as Hann.
  { destruct annotations as [a|]; simpl; [|done].
    destruct (a !! BuildConfigAnnotation); simpl; [split; discriminate | done]. }
  split.
  - intros Ha Hl. apply Hann in Ha. rewrite Ha.
    destruct labels as [l|]; simpl in *; [|discriminate]. by rewrite Hl.
  - intros Ha Hl Hd. apply Hann in Ha. rewrite Ha.
    destruct labels as [l|]; simpl in *; [|discriminate]. by rewrite Hl, Hd.
Qed.

Lemma selected_builds_resolve_witness :
  ConfigNameForBuild "annotation" "label" "deprecated"
    (Some {| BuildMeta :=
               ObjectMeta.mk "b-1" "ns" (Some {[ "deprecated" := "b" ]}) None;
             Phase := "New" |})
  = "b".
Proof.
  apply (proj2 (selected_builds_resolve "annotation" "label" "deprecated" id "b"
                  {| BuildMeta :=
                       ObjectMeta.mk "b-1" "ns" (Some {[ "deprecated" := "b" ]}) None;
                     Phase := "New" |})); reflexivity.
Defined.

(** ** BuildConfigBuilds, further *)

(** X18. Whatever the lister answers, [BuildConfigBuilds] hands on the
    lister's error and never gives a list together with an error: a list
    that comes with an error is dropped. *)
Theorem BuildConfigBuilds_list_or_error (BuildConfigLabel : string)
    (LabelValue : string -> string) (c : BuildLister) (namespace name : string)
    (filterFunc : buildFilter) (result : option BuildList) (err : option error) :
  BuildConfigBuilds BuildConfigLabel LabelValue c namespace name filterFunc
  = Return (result, err) ->
  err = (c namespace
           {| LabelSelector := BuildConfigSelector BuildConfigLabel LabelValue name |}).2
  /\ (err <> None -> result = None).
Proof.
  unfold BuildConfigBuilds.
  destruct (c namespace _) as [listed [e|]]; simpl.
  - by intros [= <- <-].
  - destruct filterFunc as [f|].
    + destruct listed as [l|]; simpl; [|discriminate]. by intros [= <- <-].
    + by intros [= <- <-].
Qed.

Lemma BuildConfigBuilds_list_or_error_witness :
  let lister : BuildLister :=
    fun _ _ => (Some (mkBuildList (TypeMeta.mk "BuildList" "v1") (ListMeta.mk "" "7") []),
                Some (Upstream "timeout")) in
  BuildConfigBuilds "label" id lister "ns" "bc" None
  = Return (None, Some (Upstream "timeout"))
  /\ (Some (Upstream "timeout") <> None -> @None BuildList = None).
Proof.
  intros lister. split; [reflexivity|].
  apply (BuildConfigBuilds_list_or_error "label" id lister "ns" "bc" None None
           (Some (Upstream "timeout")) eq_refl).
Defined.

(** X19. On a list that the lister gives without an error, a filter that
    accepts every build gives a list equal to it, and a filter that accepts
    none gives the same [TypeMeta] and [ListMeta] with no items. *)
Theorem BuildConfigBuilds_constant_filters (BuildConfigLabel : string)
    (LabelValue : string -> string) (c : BuildLister) (namespace name : string)
    (listed : BuildList) :
  c namespace {| LabelSelector := BuildConfigSelector BuildConfigLabel LabelValue name |}
  = (Some listed, None) ->
  BuildConfigBuilds BuildConfigLabel LabelValue c namespace name (Some (fun _ => true))
  = Return (Some listed, None)
  /\ BuildConfigBuilds BuildConfigLabel LabelValue c namespace name (Some (fun _ => false))
     = Return (Some {| ListTypeMeta := ListTypeMeta listed;
                       ListListMeta := ListListMeta listed;
                       Items := [] |}, None).
Proof.
  intros Hc. unfold BuildConfigBuilds. rewrite Hc. simpl.
  rewrite !filter_items_filter.
  assert (List.filter (fun _ : Build => true) (Items listed) = Items listed) as ->.
  { induction (Items listed) as [|b items IH]; simpl; [done | by rewrite IH]. }
  assert (List.filter (fun _ : Build => false) (Items listed) = []) as ->.
  { induction (Items listed) as [|b items IH]; simpl; done. }
  split; [by destruct listed | done].
Qed.

Lemma BuildConfigBuilds_constant_filters_witness :
  let listed :=
    mkBuildList (TypeMeta.mk "BuildList" "v1") (ListMeta.mk "" "7")
      [mkBuild (ObjectMeta.mk "b-1" "ns" None None) "Complete"] in
  BuildConfigBuilds "label" id (fun _ _ => (Some listed, None)) "ns" "b"
    (Some (fun _ => false))
  = Return (Some (mkBuildList (TypeMeta.mk "BuildList" "v1") (ListMeta.mk "" "7") []),
            None).
Proof.
  intros listed.
  apply (proj2 (BuildConfigBuilds_constant_filters "label" id
                  (fun _ _ => (Some listed, None)) "ns" "b" listed eq_refl)).
Defined.

(** X20. Filtering is idempotent: a list that [BuildConfigBuilds] has
    filtered comes back as it is when it is listed and filtered again with
    the same filter. *)
Theorem BuildConfigBuilds_filter_twice (BuildConfigLabel : string)
    (LabelValue : string -> string) (c again : BuildLister) (namespace name : string)
    (f : Build -> bool) (filtered : BuildList) :
  BuildConfigBuilds BuildConfigLabel LabelValue c namespace name (Some f)
  = Return (Some filtered, None) ->
  again namespace
    {| LabelSelector := BuildConfigSelector BuildConfigLabel LabelValue name |}
  = (Some filtered, None) ->
  BuildConfigBuilds BuildConfigLabel LabelValue again namespace name (Some f)
  = Return (Some filtered, None).
Proof.
  unfold BuildConfigBuilds. intros Hfirst ->. simpl.
  destruct (c namespace _) as [[listed|] [e|]]; simpl in Hfirst; try discriminate.
  injection Hfirst as <-. simpl. rewrite !filter_items_filter.
  assert (List.filter f (List.filter f (Items listed)) = List.filter f (Items listed))
    as ->; [|done].
  induction (Items listed) as [|b items IH]; simpl; [done|].
  destruct (f b) eqn:Hb; simpl; [by rewrite Hb, IH | done].
Qed.

Lemma BuildConfigBuilds_filter_twice_witness :
  let complete (b : Build) := String.eqb (Phase b) "Complete" in
  let done := mkBuild (ObjectMeta.mk "b-1" "ns" None None) "Complete" in
  let running := mkBuild (ObjectMeta.mk "b-2" "ns" None None) "Running" in
  let meta := mkBuildList (TypeMeta.mk "BuildList" "v1") (ListMeta.mk "" "7") in
  BuildConfigBuilds "label" id (fun _ _ => (Some (meta [done]), None)) "ns" "b"
    (Some complete)
  = Return (Some (meta [done]), None).
Proof.
  intros complete done running meta.
  apply (BuildConfigBuilds_filter_twice "label" id
           (fun _ _ => (Some (meta [done; running]), None))
           (fun _ _ => (Some (meta [done]), None)) "ns" "b" complete (meta [done]));
    reflexivity.
Defined.
